(** * A shallow embedding of the AFP structured-field parser

    The development follows the Python package [afp]: one module per source
    file ([exceptions], [fields], [triplets], [functions], [parser]), with a
    small module [Py] for the Python built-ins the parser relies on (list
    indexing and slicing, ordered dictionaries, string formatting, the cp500
    codec, binary files).

    Python exceptions are modelled by an error monad; loops that the source
    writes as [while] take a fuel argument, and the third outcome
    [OutOfFuel] stands for "has not returned yet". *)

From Stdlib Require Import ZArith List String Ascii Bool Lia.
From Stdlib.Strings Require Import Byte.
From Stdlib Require Decimal DecimalString DecimalZ DecimalPos.
Import ListNotations.

Local Open Scope Z_scope.
Local Open Scope list_scope.

(* ================================================================= *)
(** ** exceptions.py *)

Module exceptions.

(** The classes of exceptions.py, and the Python built-in exceptions that the
    parser can let escape. *)
Inductive exc_class : Type :=
| EOFWhileReadingError
| InvalidStructuredFieldError
| RequiredParameterMissingError
| EOSWhileReadingError
| UnrecognizedStructuredFieldError
| PaddingNotImplementedError
| InvalidTripletError
| UnrecognizedTripletError
| InvalidControlSequenceError
| UnknownFunctionError
| RepeatingGroupError
| UnrecognizedIdentifierCodeError
| IncompleteParameterError
| KeyError
| TypeError
| AttributeError
| ValueError
| IndexError.

Definition exc_class_eqb (a b : exc_class) : bool :=
  match a, b with
  | EOFWhileReadingError, EOFWhileReadingError
  | InvalidStructuredFieldError, InvalidStructuredFieldError
  | RequiredParameterMissingError, RequiredParameterMissingError
  | EOSWhileReadingError, EOSWhileReadingError
  | UnrecognizedStructuredFieldError, UnrecognizedStructuredFieldError
  | PaddingNotImplementedError, PaddingNotImplementedError
  | InvalidTripletError, InvalidTripletError
  | UnrecognizedTripletError, UnrecognizedTripletError
  | InvalidControlSequenceError, InvalidControlSequenceError
  | UnknownFunctionError, UnknownFunctionError
  | RepeatingGroupError, RepeatingGroupError
  | UnrecognizedIdentifierCodeError, UnrecognizedIdentifierCodeError
  | IncompleteParameterError, IncompleteParameterError
  | KeyError, KeyError
  | TypeError, TypeError
  | AttributeError, AttributeError
  | ValueError, ValueError
  | IndexError, IndexError => true
  | _, _ => false
  end.

(** [class X(ParseError)]: the subclasses of ParseError. *)
Definition is_ParseError (c : exc_class) : bool :=
  match c with
  | KeyError | TypeError | AttributeError | ValueError | IndexError => false
  | _ => true
  end.

(** The class attribute [modca_code]; [0x00] unless a subclass overrides it. *)
Definition modca_code (c : exc_class) : Z :=
  match c with
  | RequiredParameterMissingError => 0x04
  | UnrecognizedStructuredFieldError => 0x10
  | UnrecognizedTripletError => 0x10
  | UnrecognizedIdentifierCodeError => 0x40
  | IncompleteParameterError => 0x02
  | _ => 0x00
  end.

(** An exception instance: [ParseError.__init__] stores the message and the
    two context fields, both [None] until [stream] fills them in. *)
Record exn : Type := mk_exn {
  cls : exc_class;
  message : string;
  field_no : option Z;
  field_start_offset : option Z
}.

Definition new (c : exc_class) (msg : string) : exn := mk_exn c msg None None.

End exceptions.
Export exceptions.

(* ================================================================= *)
(** ** The error monad *)

Inductive outcome (A : Type) : Type :=
| Ok (a : A)
| Raise (e : exn)
| OutOfFuel.
Arguments Ok {A} a.
Arguments Raise {A} e.
Arguments OutOfFuel {A}.

Definition bind {A B : Type} (m : outcome A) (k : A -> outcome B) : outcome B :=
  match m with
  | Ok a => k a
  | Raise e => Raise e
  | OutOfFuel => OutOfFuel
  end.

Declare Scope py_scope.
Delimit Scope py_scope with py.
Notation "x <- m ;; k" := (bind m (fun x => k))
  (at level 61, m at next level, right associativity) : py_scope.
Notation "' pat <- m ;; k" := (bind m (fun x => match x with pat => k end))
  (at level 61, pat pattern, m at next level, right associativity) : py_scope.
Local Open Scope py_scope.

(* ================================================================= *)
(** ** Python built-ins *)

Module Py.

(** Python values that end up in a decoded record: integers, text, lists
    (of bytes, of nested records, of exception pairs), dictionaries (ordered
    by insertion) and tuples. *)
#[warnings="-register-all"]
Inductive value : Type :=
| VInt (z : Z)
| VStr (s : string)
| VList (l : list value)
| VDict (d : list (string * value))
| VTuple (l : list value).

(** An insertion-ordered dictionary with string keys. *)
Definition dict (V : Type) : Type := list (string * V).

Definition len {A : Type} (l : list A) : Z := Z.of_nat (List.length l).

(** [k in d] *)
Fixpoint contains {V : Type} (d : dict V) (k : string) : bool :=
  match d with
  | [] => false
  | (k', _) :: d' => if String.eqb k' k then true else contains d' k
  end.

(** [d.get(k)] *)
Fixpoint lookup {V : Type} (d : dict V) (k : string) : option V :=
  match d with
  | [] => None
  | (k', v) :: d' => if String.eqb k' k then Some v else lookup d' k
  end.

(** [d[k]], raising KeyError when the key is missing. *)
Definition getitem {V : Type} (d : dict V) (k : string) : outcome V :=
  match lookup d k with
  | Some v => Ok v
  | None => Raise (exceptions.new KeyError k)
  end.

(** [d[k] = v]: an existing key keeps its position, a new key goes last. *)
Fixpoint setitem {V : Type} (d : dict V) (k : string) (v : V) : dict V :=
  match d with
  | [] => [(k, v)]
  | (k', v') :: d' =>
      if String.eqb k' k then (k', v) :: d' else (k', v') :: setitem d' k v
  end.

Definition keys {V : Type} (d : dict V) : list string := map fst d.

(** [l[i]] on a list: negative indices count from the end, and an index out
    of range raises IndexError. *)
Definition index {A : Type} (l : list A) (i : Z) : outcome A :=
  let j := if i <? 0 then i + len l else i in
  if j <? 0 then Raise (exceptions.new IndexError "list index out of range")
  else match nth_error l (Z.to_nat j) with
       | Some a => Ok a
       | None => Raise (exceptions.new IndexError "list index out of range")
       end.

(** [range(a, b)] *)
Definition range (a b : Z) : list Z :=
  map (fun i => a + Z.of_nat i) (seq 0 (Z.to_nat (b - a))).

(** [[f(i) for i in l]] where [f] may raise. *)
Fixpoint comprehension {A B : Type} (f : A -> outcome B) (l : list A)
  : outcome (list B) :=
  match l with
  | [] => Ok []
  | a :: l' => b <- f a ;; bs <- comprehension f l' ;; Ok (b :: bs)
  end.

(** Slice bounds are clamped the way Python clamps them. *)
Definition clamp (n i : Z) : Z :=
  if i <? 0 then Z.max 0 (i + n) else Z.min i n.

(** [l[a:b]] *)
Definition slice {A : Type} (l : list A) (a b : Z) : list A :=
  let a' := clamp (len l) a in
  let b' := clamp (len l) b in
  firstn (Z.to_nat (b' - a')) (skipn (Z.to_nat a') l).

(** [l[a:]] *)
Definition slice_from {A : Type} (l : list A) (a : Z) : list A :=
  skipn (Z.to_nat (clamp (len l) a)) l.

(** *** String formatting *)

(** ['{0}'.format(z)] for an integer. *)
Definition str_int (z : Z) : string := DecimalString.NilZero.string_of_int (Z.to_int z).

Definition hex_digit (d : Z) : ascii :=
  nth (Z.to_nat d)
      ["0"; "1"; "2"; "3"; "4"; "5"; "6"; "7";
       "8"; "9"; "A"; "B"; "C"; "D"; "E"; "F"]%char "0"%char.

Fixpoint hex_digits (fuel : nat) (z : Z) (acc : string) : string :=
  match fuel with
  | O => acc
  | S fuel' =>
      let acc' := String (hex_digit (z mod 16)) acc in
      if z / 16 =? 0 then acc' else hex_digits fuel' (z / 16) acc'
  end.

Fixpoint zeros (n : nat) : string :=
  match n with
  | O => EmptyString
  | S n' => String "0"%char (zeros n')
  end.

(** ['{0:0wX}'.format(z)]: upper-case hexadecimal, zero-padded to width [w],
    the sign (if any) before the padding. *)
Definition format_X (w : nat) (z : Z) : string :=
  let digits := hex_digits (S (Z.to_nat (Z.log2 (Z.abs z)))) (Z.abs z) EmptyString in
  if z <? 0
  then String "-"%char (zeros (w - 1 - String.length digits) ++ digits)%string
  else (zeros (w - String.length digits) ++ digits)%string.

(** ['{0}'.format(l)] for a list of integers: [[1, 2, 3]]. *)
Fixpoint repr_items (l : list Z) : string :=
  match l with
  | [] => EmptyString
  | [z] => str_int z
  | z :: l' => (str_int z ++ ", " ++ repr_items l')%string
  end.

Definition repr_list (l : list Z) : string :=
  ("[" ++ repr_items l ++ "]")%string.

(** *** The cp500 codec (alias EBCDIC-CP-BE) and [str.strip] *)

(** Decoding table of Python's [encodings.cp500]: entry [i] is the code
    point (below 256) of byte [i]. *)
Definition cp500_table : list nat :=
  [0; 1; 2; 3; 156; 9; 134; 127; 151; 141; 142; 11; 12; 13; 14; 15;
   16; 17; 18; 19; 157; 133; 8; 135; 24; 25; 146; 143; 28; 29; 30; 31;
   128; 129; 130; 131; 132; 10; 23; 27; 136; 137; 138; 139; 140; 5; 6; 7;
   144; 145; 22; 147; 148; 149; 150; 4; 152; 153; 154; 155; 20; 21; 158; 26;
   32; 160; 226; 228; 224; 225; 227; 229; 231; 241; 91; 46; 60; 40; 43; 33;
   38; 233; 234; 235; 232; 237; 238; 239; 236; 223; 93; 36; 42; 41; 59; 94;
   45; 47; 194; 196; 192; 193; 195; 197; 199; 209; 166; 44; 37; 95; 62; 63;
   248; 201; 202; 203; 200; 205; 206; 207; 204; 96; 58; 35; 64; 39; 61; 34;
   216; 97; 98; 99; 100; 101; 102; 103; 104; 105; 171; 187; 240; 253; 254; 177;
   176; 106; 107; 108; 109; 110; 111; 112; 113; 114; 170; 186; 230; 184; 198; 164;
   181; 126; 115; 116; 117; 118; 119; 120; 121; 122; 161; 191; 208; 221; 222; 174;
   162; 163; 165; 183; 169; 167; 182; 188; 189; 190; 172; 124; 175; 168; 180; 215;
   123; 65; 66; 67; 68; 69; 70; 71; 72; 73; 173; 244; 246; 242; 243; 245;
   125; 74; 75; 76; 77; 78; 79; 80; 81; 82; 185; 251; 252; 249; 250; 255;
   92; 247; 83; 84; 85; 86; 87; 88; 89; 90; 178; 212; 214; 210; 211; 213;
   48; 49; 50; 51; 52; 53; 54; 55; 56; 57; 179; 219; 220; 217; 218; 159]%nat.

(** A Python [str] whose code points are below 256 is a Rocq [string], one
    [ascii] per code point. *)
Definition cp500_decode (b : list byte) : string :=
  string_of_list_ascii
    (map (fun x => ascii_of_nat (nth (Byte.to_nat x) cp500_table 0%nat)) b).

(** [str.isspace] on the code points below 256. *)
Definition isspace (c : ascii) : bool :=
  existsb (Nat.eqb (nat_of_ascii c))
          [9; 10; 11; 12; 13; 28; 29; 30; 31; 32; 133; 160]%nat.

Fixpoint lstrip (l : list ascii) : list ascii :=
  match l with
  | [] => []
  | c :: l' => if isspace c then lstrip l' else l
  end.

(** [s.strip()]: white space removed at both ends. *)
Definition strip (s : string) : string :=
  string_of_list_ascii (rev (lstrip (rev (lstrip (list_ascii_of_string s))))).

(** *** Binary files *)

(** A file opened with [open(name, 'rb')]: the bytes not read yet and the
    position [f.tell()] reports. *)
Record file : Type := mk_file {
  position : Z;
  remaining : list byte
}.

(** [f.read(n)] of a buffered reader: at most [n] bytes; everything that is
    left for [n = -1]; ValueError below that. *)
Definition read (f : file) (n : Z) : outcome (list byte * file) :=
  if n <? -1
  then Raise (exceptions.new ValueError "read length must be non-negative or -1")
  else
    let s := if n =? -1 then remaining f else firstn (Z.to_nat n) (remaining f) in
    Ok (s, mk_file (position f + len s) (skipn (List.length s) (remaining f))).

Definition tell (f : file) : Z := position f.

End Py.
Export Py.

(** The integer a byte stands for, as [bytes.__getitem__] returns it. *)
Definition byte_val (b : byte) : Z := Z.of_N (Byte.to_N b).

(** [str(e)] of exceptions.py, [ParseError.__str__]. *)
Definition str (e : exn) : string :=
  let s :=
    if modca_code (cls e) =? 0x00 then message e
    else ("0x" ++ format_X 2 (modca_code (cls e)) ++ " " ++ message e)%string in
  let '(s, sep) :=
    match field_no e with
    | Some n => ((s ++ " -" ++ " field " ++ str_int n)%string, ";"%string)
    | None => (s, " -"%string)
    end in
  match field_start_offset e with
  | Some o => (s ++ sep ++ " start offset " ++ str_int o)%string
  | None => s
  end.

(* ================================================================= *)
(** ** fields.py *)

Module fields.

(** Data types *)
Inductive ptype : Type :=
| PTYPE_CODE
| PTYPE_BYTE
| PTYPE_UBIN
| PTYPE_SBIN
| PTYPE_CHAR
| PTYPE_TRIPLET
| PTYPE_PTOCA.

(** Parameter Names *)
Definition PNAME_EXT_DATA : string := "ExtData".
Definition PNAME_EXT_LENGTH : string := "ExtLength".
Definition PNAME_FLAG_BYTE : string := "FlagByte".
Definition PNAME_SF_LENGTH : string := "SFLength".
Definition PNAME_SF_TYPE_ID : string := "SFTypeID".
Definition PNAME_TRIPLETS : string := "Triplets".

(** The parameter preprocess functions, by name: the parser compares them by
    identity, and [call_preproc] below gives their bodies. *)
Inductive preproc_fn : Type :=
| _next_group_length
| _this_group_length
| _suppress_if_no_extension
| _set_extension_length.

Definition preproc_fn_eqb (a b : preproc_fn) : bool :=
  match a, b with
  | _next_group_length, _next_group_length
  | _this_group_length, _this_group_length
  | _suppress_if_no_extension, _suppress_if_no_extension
  | _set_extension_length, _set_extension_length => true
  | _, _ => false
  end.

(** A parameter of a structured field, triplet or control sequence function. *)
Record ParameterType : Type := mk_ParameterType {
  offset : Z;
  length : Z;
  datatype : ptype;
  name : string;
  mandatory : bool;
  preproc : option preproc_fn
}.

(** An element of a syntax: a parameter, or a nested list (repeating group). *)
#[warnings="-register-all"]
Inductive elem : Type :=
| SParam (p : ParameterType)
| SGroup (g : list elem).

Definition syntax : Type := list elem.

(** [b & mask > 0] for an integer [b]; TypeError for anything else. *)
Definition flag_set (mask : Z) (b : value) : outcome bool :=
  match b with
  | VInt z => Ok (Z.land z mask >? 0)
  | _ => Raise (exceptions.new TypeError "unsupported operand type(s) for &")
  end.

Definition sfi_ext_flag (b : value) : outcome bool := flag_set 128 b.
Definition sfi_seg_flag (b : value) : outcome bool := flag_set 32 b.
Definition sfi_pad_flag (b : value) : outcome bool := flag_set 8 b.

(** The bodies of the preprocess functions; [None] skips the parameter. *)
Definition call_preproc (f : preproc_fn) (sf : dict value) (param : ParameterType)
  : outcome (option ParameterType) :=
  match f with
  | _next_group_length => Ok (Some param)
  | _this_group_length => Ok (Some param)
  | _suppress_if_no_extension =>
      b <- getitem sf PNAME_FLAG_BYTE ;;
      ext <- sfi_ext_flag b ;;
      if ext then Ok (Some param) else Ok None
  | _set_extension_length =>
      b <- getitem sf PNAME_FLAG_BYTE ;;
      ext <- sfi_ext_flag b ;;
      if ext then
        l <- getitem sf PNAME_EXT_LENGTH ;;
        match l with
        | VInt l =>
            Ok (Some (mk_ParameterType (offset param) (l - 1) (datatype param)
                                       (name param) (mandatory param) (preproc param)))
        | _ => Raise (exceptions.new TypeError "unsupported operand type(s) for -")
        end
      else Ok None
  end.

Local Abbreviation P o l t n m f := (SParam (mk_ParameterType o l t n m f)).

(** Structured Field Introducer, the raw syntax, and the syntaxes of the
    structured fields the package defines. *)

Definition SYNTAX_SFI : syntax := [
  P 0 3 PTYPE_CODE PNAME_SF_TYPE_ID true None;
  P 3 1 PTYPE_BYTE PNAME_FLAG_BYTE true None;
  P 4 2 PTYPE_BYTE "Reserved" true None;
  P 6 1 PTYPE_UBIN PNAME_EXT_LENGTH true (Some _suppress_if_no_extension);
  P 7 0 PTYPE_BYTE PNAME_EXT_DATA true (Some _set_extension_length)
].

Definition SYNTAX_FIELD_RAW : syntax := [
  P 0 0 PTYPE_BYTE "Data" false None
].

Definition SYNTAX_FIELD_BAG : syntax := [
  P 0 8 PTYPE_CHAR "AEGName" false None;
  P 8 0 PTYPE_TRIPLET PNAME_TRIPLETS false None
].

Definition SYNTAX_FIELD_BDG : syntax := [
  P 0 8 PTYPE_CHAR "DEGName" false None;
  P 8 0 PTYPE_TRIPLET PNAME_TRIPLETS false None
].

Definition SYNTAX_FIELD_BDI : syntax := [
  P 0 8 PTYPE_CHAR "IndxName" false None;
  P 8 0 PTYPE_TRIPLET PNAME_TRIPLETS false None
].

Definition SYNTAX_FIELD_BDT : syntax := [
  P 0 8 PTYPE_CHAR "DocName" true None;
  P 8 2 PTYPE_BYTE "Reserved" true None;
  P 10 0 PTYPE_TRIPLET PNAME_TRIPLETS true None
].

Definition SYNTAX_FIELD_BFG : syntax := [
  P 0 8 PTYPE_CHAR "FEGName" false None
].

Definition SYNTAX_FIELD_BFM : syntax := [
  P 0 8 PTYPE_CHAR "FMName" false None;
  P 8 0 PTYPE_TRIPLET PNAME_TRIPLETS false None
].

Definition SYNTAX_FIELD_BMM : syntax := [
  P 0 8 PTYPE_CHAR "MMName" true None;
  P 8 0 PTYPE_TRIPLET PNAME_TRIPLETS false None
].

Definition SYNTAX_FIELD_BNG : syntax := [
  P 0 8 PTYPE_CHAR "PGrpName" true None;
  P 8 0 PTYPE_TRIPLET PNAME_TRIPLETS false None
].

Definition SYNTAX_FIELD_BPG : syntax := [
  P 0 8 PTYPE_CHAR "PageName" false None;
  P 8 0 PTYPE_TRIPLET PNAME_TRIPLETS false None
].

Definition SYNTAX_FIELD_BPT : syntax := [
  P 0 8 PTYPE_CHAR "PTdoName" false None;
  P 8 0 PTYPE_TRIPLET PNAME_TRIPLETS false None
].

Definition SYNTAX_FIELD_BRG : syntax := [
  P 0 8 PTYPE_CHAR "RGrpName" false None;
  P 8 0 PTYPE_TRIPLET PNAME_TRIPLETS false None
].

Definition SYNTAX_FIELD_BRS : syntax := [
  P 0 8 PTYPE_CHAR "RSName" true None;
  P 8 2 PTYPE_BYTE "Reserved" true None;
  P 10 0 PTYPE_TRIPLET PNAME_TRIPLETS true None
].

Definition SYNTAX_FIELD_CTC : syntax := [
  P 0 10 PTYPE_BYTE "ConData" true None
].

Definition SYNTAX_FIELD_EAG : syntax := [
  P 0 8 PTYPE_CHAR "AEGName" false None
].

Definition SYNTAX_FIELD_EDG : syntax := [
  P 0 8 PTYPE_CHAR "DEGName" false None
].

Definition SYNTAX_FIELD_EDI : syntax := [
  P 0 8 PTYPE_CHAR "IndxName" false None;
  P 8 0 PTYPE_TRIPLET PNAME_TRIPLETS false None
].

Definition SYNTAX_FIELD_EDT : syntax := [
  P 0 8 PTYPE_CHAR "DocName" false None;
  P 8 0 PTYPE_TRIPLET PNAME_TRIPLETS false None
].

Definition SYNTAX_FIELD_EFG : syntax := [
  P 0 8 PTYPE_CHAR "FEGName" false None
].

Definition SYNTAX_FIELD_EFM : syntax := [
  P 0 8 PTYPE_CHAR "FMName" false None
].

Definition SYNTAX_FIELD_EMM : syntax := [
  P 0 8 PTYPE_CHAR "MMName" false None
].

Definition SYNTAX_FIELD_ENG : syntax := [
  P 0 8 PTYPE_CHAR "PGrpName" false None;
  P 8 0 PTYPE_TRIPLET PNAME_TRIPLETS false None
].

Definition SYNTAX_FIELD_EPG : syntax := [
  P 0 8 PTYPE_CHAR "PageName" false None;
  P 8 0 PTYPE_TRIPLET PNAME_TRIPLETS false None
].

Definition SYNTAX_FIELD_EPT : syntax := [
  P 0 8 PTYPE_CHAR "PTdoName" false None;
  P 8 0 PTYPE_TRIPLET PNAME_TRIPLETS false None
].

Definition SYNTAX_FIELD_ERG : syntax := [
  P 0 8 PTYPE_CHAR "RGrpName" false None;
  P 8 0 PTYPE_TRIPLET PNAME_TRIPLETS false None
].

Definition SYNTAX_FIELD_ERS : syntax := [
  P 0 8 PTYPE_CHAR "RSName" false None
].

Definition SYNTAX_FIELD_IEL : syntax := [
  P 0 0 PTYPE_TRIPLET PNAME_TRIPLETS true None
].

Definition SYNTAX_FIELD_IPO : syntax := [
  P 0 8 PTYPE_CHAR "OvlyName" true None;
  P 8 3 PTYPE_SBIN "XolOset" true None;
  P 11 3 PTYPE_SBIN "YolOset" true None;
  P 14 2 PTYPE_CODE "OvlyOrent" false None;
  P 16 0 PTYPE_TRIPLET PNAME_TRIPLETS false None
].

Definition SYNTAX_FIELD_IPS : syntax := [
  P 0 8 PTYPE_CHAR "PsegName" true None;
  P 8 3 PTYPE_SBIN "XpsOset" true None;
  P 11 3 PTYPE_SBIN "YpsOset" true None;
  P 14 0 PTYPE_TRIPLET PNAME_TRIPLETS false None
].

Definition SYNTAX_FIELD_MCC : syntax := [
  SGroup [
    P 0 2 PTYPE_UBIN "Startnum" true None;
    P 2 2 PTYPE_UBIN "Stopnum" true None;
    P 4 1 PTYPE_BYTE "Reserved" true None;
    P 5 1 PTYPE_CODE "MMCid" true None
  ]
].

Definition SYNTAX_FIELD_MCF : syntax := [
  SGroup [
    P 0 2 PTYPE_UBIN "RGLength" true (Some _this_group_length);
    P 2 0 PTYPE_TRIPLET PNAME_TRIPLETS true None
  ]
].

Definition SYNTAX_FIELD_MCF_1 : syntax := [
  P 0 1 PTYPE_UBIN "RGLength" true (Some _next_group_length);
  P 1 3 PTYPE_BYTE "Reserved" true None;
  SGroup [
    P 0 1 PTYPE_UBIN "CFLid" true None;
    P 1 1 PTYPE_BYTE "Reserved" true None;
    P 2 1 PTYPE_CODE "Sectid" true None;
    P 3 1 PTYPE_BYTE "Reserved" true None;
    P 4 8 PTYPE_CHAR "CFName" true None;
    P 12 8 PTYPE_CHAR "CPName" true None;
    P 20 8 PTYPE_CHAR "FCSName" true None;
    P 28 2 PTYPE_CODE "CharRot" false None
  ]
].

Definition SYNTAX_FIELD_MDD : syntax := [
  P 0 1 PTYPE_CODE "XmBase" true None;
  P 1 1 PTYPE_CODE "YmBase" true None;
  P 2 2 PTYPE_UBIN "XmUnits" true None;
  P 4 2 PTYPE_UBIN "YmUnits" true None;
  P 6 3 PTYPE_UBIN "XmSize" true None;
  P 9 3 PTYPE_UBIN "YmSize" true None;
  P 12 1 PTYPE_BYTE "MDDFlgs" true None;
  P 13 0 PTYPE_TRIPLET PNAME_TRIPLETS false None
].

Definition SYNTAX_FIELD_MMC : syntax := [
  P 0 1 PTYPE_CODE "MMCid" true None;
  P 1 1 PTYPE_CODE "Constant" true None;
  P 2 0 PTYPE_BYTE "Keywords" false None
].

Definition SYNTAX_FIELD_MPO : syntax := [
  SGroup [
    P 0 2 PTYPE_UBIN "RGLength" true (Some _this_group_length);
    P 2 0 PTYPE_TRIPLET PNAME_TRIPLETS true None
  ]
].

Definition SYNTAX_FIELD_NOP : syntax := [
  P 0 0 PTYPE_BYTE "UndfData" false None
].

Definition SYNTAX_FIELD_PGD : syntax := [
  P 0 1 PTYPE_CODE "XpgBase" true None;
  P 1 1 PTYPE_CODE "YpgBase" true None;
  P 2 2 PTYPE_UBIN "XpgUnits" true None;
  P 4 2 PTYPE_UBIN "YpgUnits" true None;
  P 6 3 PTYPE_UBIN "XpgSize" true None;
  P 9 3 PTYPE_UBIN "YpgSize" true None;
  P 12 3 PTYPE_BYTE "Reserved" true None;
  P 15 0 PTYPE_TRIPLET PNAME_TRIPLETS false None
].

Definition SYNTAX_FIELD_PGP_1 : syntax := [
  P 0 3 PTYPE_UBIN "XmOset" true None;
  P 3 3 PTYPE_UBIN "YmOset" true None
].

Definition SYNTAX_FIELD_PTD : syntax := [
  P 0 1 PTYPE_CODE "XPBASE" true None;
  P 1 1 PTYPE_CODE "YPBASE" true None;
  P 2 2 PTYPE_UBIN "XPUNITVL" true None;
  P 4 2 PTYPE_UBIN "YPUNITVL" true None;
  P 6 3 PTYPE_UBIN "XPEXTENT" true None;
  P 9 3 PTYPE_UBIN "YPEXTENT" true None;
  P 12 2 PTYPE_BYTE "TEXTFLAGS" false None;
  P 14 0 PTYPE_BYTE "TXTCONDS" false None
].

Definition SYNTAX_FIELD_PTD_1 : syntax := [
  P 0 1 PTYPE_CODE "XptBase" true None;
  P 1 1 PTYPE_CODE "YptBase" true None;
  P 2 2 PTYPE_UBIN "XptUnits" true None;
  P 4 2 PTYPE_UBIN "YptUnits" true None;
  P 6 2 PTYPE_UBIN "XptSize" true None;
  P 8 2 PTYPE_UBIN "YptSize" true None;
  P 10 2 PTYPE_BYTE "Reserved" false None
].

Definition SYNTAX_FIELD_PTX : syntax := [
  P 0 0 PTYPE_PTOCA "PTOCAdat" false None
].

Definition SYNTAX_FIELD_TLE : syntax := [
  P 0 0 PTYPE_TRIPLET PNAME_TRIPLETS true None
].

(** Structured field identifiers. *)

Definition SF_BAG : Z := 0xd3a8c9.
Definition SF_BDG : Z := 0xd3a8c4.
Definition SF_BDI : Z := 0xd3a8a7.
Definition SF_BDT : Z := 0xd3a8a8.
Definition SF_BFG : Z := 0xd3a8c5.
Definition SF_BFM : Z := 0xd3a8cd.
Definition SF_BMM : Z := 0xd3a8cc.
Definition SF_BNG : Z := 0xd3a8ad.
Definition SF_BPG : Z := 0xd3a8af.
Definition SF_BPT : Z := 0xd3a89b.
Definition SF_BRG : Z := 0xd3a8c6.
Definition SF_BRS : Z := 0xd3a8ce.
Definition SF_CTC : Z := 0xd3a79b.
Definition SF_EAG : Z := 0xd3a9c9.
Definition SF_EDG : Z := 0xd3a9c4.
Definition SF_EDI : Z := 0xd3a9a7.
Definition SF_EDT : Z := 0xd3a9a8.
Definition SF_EFG : Z := 0xd3a9c5.
Definition SF_EFM : Z := 0xd3a9cd.
Definition SF_EMM : Z := 0xd3a9cc.
Definition SF_ENG : Z := 0xd3a9ad.
Definition SF_EPG : Z := 0xd3a9af.
Definition SF_EPT : Z := 0xd3a99b.
Definition SF_ERG : Z := 0xd3a9c6.
Definition SF_ERS : Z := 0xd3a9ce.
Definition SF_IEL : Z := 0xd3b2a7.
Definition SF_IPO : Z := 0xd3afd8.
Definition SF_IPS : Z := 0xd3af5f.
Definition SF_MCC : Z := 0xd3a288.
Definition SF_MCF : Z := 0xd3ab8a.
Definition SF_MCF_1 : Z := 0xd3b18a.
Definition SF_MDD : Z := 0xd3a688.
Definition SF_MMC : Z := 0xd3a788.
Definition SF_MPO : Z := 0xd3abd8.
Definition SF_NOP : Z := 0xd3eeee.
Definition SF_PGD : Z := 0xd3a6af.
Definition SF_PGP_1 : Z := 0xd3acaf.
Definition SF_PTD : Z := 0xd3b19b.
Definition SF_PTD_1 : Z := 0xd3a69b.
Definition SF_PTX : Z := 0xd3ee9b.
Definition SF_TLE : Z := 0xd3a090.

Record StructuredFieldType : Type := mk_StructuredFieldType {
  sf_abbreviation : string;
  sf_name : string;
  sf_syntax : option syntax
}.

Definition SF_TYPES : list (Z * StructuredFieldType) := [
  (SF_BAG, mk_StructuredFieldType "BAG" "Begin Active Environment Group" (Some SYNTAX_FIELD_BAG));
  (SF_BDG, mk_StructuredFieldType "BDG" "Begin Document Environment Group" (Some SYNTAX_FIELD_BDG));
  (SF_BDI, mk_StructuredFieldType "BDI" "Begin Document Index" (Some SYNTAX_FIELD_BDI));
  (SF_BDT, mk_StructuredFieldType "BDT" "Begin Document" (Some SYNTAX_FIELD_BDT));
  (SF_BFG, mk_StructuredFieldType "BFG" "Begin Form Environment Group" (Some SYNTAX_FIELD_BFG));
  (SF_BFM, mk_StructuredFieldType "BFM" "Begin Form Map" (Some SYNTAX_FIELD_BFM));
  (SF_BMM, mk_StructuredFieldType "BMM" "Begin Medium Map" (Some SYNTAX_FIELD_BMM));
  (SF_BNG, mk_StructuredFieldType "BNG" "Begin Named Page Group" (Some SYNTAX_FIELD_BNG));
  (SF_BPG, mk_StructuredFieldType "BPG" "Begin Page" (Some SYNTAX_FIELD_BPG));
  (SF_BPT, mk_StructuredFieldType "BPT" "Begin Presentation Text Object" (Some SYNTAX_FIELD_BPT));
  (SF_BRG, mk_StructuredFieldType "BRG" "Begin Resource Group" (Some SYNTAX_FIELD_BRG));
  (SF_BRS, mk_StructuredFieldType "BRS" "Begin Resource" (Some SYNTAX_FIELD_BRS));
  (SF_CTC, mk_StructuredFieldType "CTC" "Composed Text Control" (Some SYNTAX_FIELD_CTC));
  (SF_EAG, mk_StructuredFieldType "EAG" "End Active Environment Group" (Some SYNTAX_FIELD_EAG));
  (SF_EDG, mk_StructuredFieldType "EDG" "End Document Environment Group" (Some SYNTAX_FIELD_EDG));
  (SF_EDI, mk_StructuredFieldType "EDI" "End Document Index" (Some SYNTAX_FIELD_EDI));
  (SF_EDT, mk_StructuredFieldType "EDT" "End Document" (Some SYNTAX_FIELD_EDT));
  (SF_EFG, mk_StructuredFieldType "EFG" "End Form Environment Group" (Some SYNTAX_FIELD_EFG));
  (SF_EFM, mk_StructuredFieldType "EFM" "End Form Map" (Some SYNTAX_FIELD_EFM));
  (SF_EMM, mk_StructuredFieldType "EMM" "End Medium Map" (Some SYNTAX_FIELD_EMM));
  (SF_ENG, mk_StructuredFieldType "ENG" "End Named Page Group" (Some SYNTAX_FIELD_ENG));
  (SF_EPG, mk_StructuredFieldType "EPG" "End Page" (Some SYNTAX_FIELD_EPG));
  (SF_EPT, mk_StructuredFieldType "EPT" "End Presentation Text Object" (Some SYNTAX_FIELD_EPT));
  (SF_ERG, mk_StructuredFieldType "ERG" "End Resource Group" (Some SYNTAX_FIELD_ERG));
  (SF_ERS, mk_StructuredFieldType "ERS" "End Resource" (Some SYNTAX_FIELD_ERS));
  (SF_IEL, mk_StructuredFieldType "IEL" "Index Element" (Some SYNTAX_FIELD_IEL));
  (SF_IPO, mk_StructuredFieldType "IPO" "Include Page Overlay" (Some SYNTAX_FIELD_IPO));
  (SF_IPS, mk_StructuredFieldType "IPS" "Include Page Segment" (Some SYNTAX_FIELD_IPS));
  (SF_MCC, mk_StructuredFieldType "MCC" "Medium Copy Count" (Some SYNTAX_FIELD_MCC));
  (SF_MCF, mk_StructuredFieldType "MCF" "Map Coded Font Format 2" (Some SYNTAX_FIELD_MCF));
  (SF_MCF_1, mk_StructuredFieldType "MCF-1" "Map Coded Font Format 1" (Some SYNTAX_FIELD_MCF_1));
  (SF_MDD, mk_StructuredFieldType "MDD" "Medium Descriptor" (Some SYNTAX_FIELD_MDD));
  (SF_MMC, mk_StructuredFieldType "MMC" "Medium Modification Control" (Some SYNTAX_FIELD_MMC));
  (SF_MPO, mk_StructuredFieldType "MPO" "Map Page Overlay" (Some SYNTAX_FIELD_MPO));
  (SF_NOP, mk_StructuredFieldType "NOP" "No Operation" (Some SYNTAX_FIELD_NOP));
  (SF_PGD, mk_StructuredFieldType "PGD" "Page Descriptor" (Some SYNTAX_FIELD_PGD));
  (SF_PGP_1, mk_StructuredFieldType "PGP-1" "Page Position Format 1" (Some SYNTAX_FIELD_PGP_1));
  (SF_PTD, mk_StructuredFieldType "PTD" "Presentation Text Data Descriptor Format 2" (Some SYNTAX_FIELD_PTD));
  (SF_PTD_1, mk_StructuredFieldType "PTD-1" "Presentation Text Data Descriptor Format 1" (Some SYNTAX_FIELD_PTD_1));
  (SF_PTX, mk_StructuredFieldType "PTX" "Presentation Text Data" (Some SYNTAX_FIELD_PTX));
  (SF_TLE, mk_StructuredFieldType "TLE" "Tag Logical Element" (Some SYNTAX_FIELD_TLE))
].

End fields.

(* ================================================================= *)
(** ** triplets.py *)

Module triplets.
Import fields.

Local Abbreviation P o l t n m f := (SParam (mk_ParameterType o l t n m f)).

(** Parameter Names *)
Definition PNAME_T_ID : string := "Tid".
Definition PNAME_T_LENGTH : string := "Tlength".

(** The raw syntax, and the syntaxes of the triplets the package defines. *)

Definition SYNTAX_TRIPLET_RAW : syntax := [
  P 0 0 PTYPE_BYTE "Contents" true None
].

Definition SYNTAX_TRIPLET_01 : syntax := [
  P 0 2 PTYPE_CODE "GCSGID" true None;
  P 2 2 PTYPE_CODE "ID" true None
].

Definition SYNTAX_TRIPLET_02 : syntax := [
  P 0 1 PTYPE_CODE "FQNType" true None;
  P 1 1 PTYPE_CODE "FQNFmt" true None;
  P 2 0 PTYPE_CHAR "FQName" true None
].

Definition SYNTAX_TRIPLET_18 : syntax := [
  P 0 1 PTYPE_CODE "IStype" true None;
  P 1 2 PTYPE_CODE "ISid" true None
].

Definition SYNTAX_TRIPLET_21 : syntax := [
  P 0 1 PTYPE_CODE "ObjType" true None;
  P 1 7 PTYPE_CODE "ConData" true None
].

Definition SYNTAX_TRIPLET_24 : syntax := [
  P 0 1 PTYPE_CODE "ResType" true None;
  P 1 1 PTYPE_CODE "ResLID" true None
].

Definition SYNTAX_TRIPLET_25 : syntax := [
  P 0 1 PTYPE_CODE "ResSNum" true None
].

Definition SYNTAX_TRIPLET_26 : syntax := [
  P 0 2 PTYPE_CODE "CharRot" true None
].

Definition SYNTAX_TRIPLET_2D : syntax := [
  P 0 4 PTYPE_UBIN "DirByOff" true None;
  P 4 4 PTYPE_UBIN "DirByHi" false None
].

Definition SYNTAX_TRIPLET_36 : syntax := [
  P 0 2 PTYPE_BYTE "Reserved" true None;
  P 2 0 PTYPE_CHAR "AttVal" false None
].

Definition SYNTAX_TRIPLET_56 : syntax := [
  P 0 4 PTYPE_UBIN "PageNum" true None
].

Definition SYNTAX_TRIPLET_57 : syntax := [
  P 0 4 PTYPE_UBIN "ByteExt" true None;
  P 4 4 PTYPE_UBIN "BytExtHi" true None
].

Definition SYNTAX_TRIPLET_58 : syntax := [
  P 0 4 PTYPE_UBIN "SFOff" true None;
  P 4 4 PTYPE_UBIN "SFOffHi" false None
].

Definition SYNTAX_TRIPLET_59 : syntax := [
  P 0 4 PTYPE_UBIN "SFExt" true None;
  P 4 4 PTYPE_UBIN "SFExtHi" false None
].

Definition SYNTAX_TRIPLET_62 : syntax := [
  P 0 1 PTYPE_CODE "StampType" true None;
  P 1 1 PTYPE_CODE "THunYear" true None;
  P 2 2 PTYPE_CODE "TenYear" true None;
  P 4 3 PTYPE_CODE "Day" true None;
  P 7 2 PTYPE_CODE "Hour" true None;
  P 9 2 PTYPE_CODE "Minute" true None;
  P 11 2 PTYPE_CODE "Second" true None;
  P 13 2 PTYPE_CODE "HundSec" true None
].

Definition SYNTAX_TRIPLET_68 : syntax := [
  P 0 1 PTYPE_CODE "MedOrient" true None
].

Definition SYNTAX_TRIPLET_80 : syntax := [
  P 0 4 PTYPE_UBIN "SeqNum" true None;
  P 4 4 PTYPE_UBIN "LevNum" true None
].

Definition TT_01 : Z := 0x01.
Definition TT_02 : Z := 0x02.
Definition TT_18 : Z := 0x18.
Definition TT_21 : Z := 0x21.
Definition TT_24 : Z := 0x24.
Definition TT_25 : Z := 0x25.
Definition TT_26 : Z := 0x26.
Definition TT_2D : Z := 0x2D.
Definition TT_36 : Z := 0x36.
Definition TT_56 : Z := 0x56.
Definition TT_57 : Z := 0x57.
Definition TT_58 : Z := 0x58.
Definition TT_59 : Z := 0x59.
Definition TT_62 : Z := 0x62.
Definition TT_68 : Z := 0x68.
Definition TT_80 : Z := 0x80.

Record TripletType : Type := mk_TripletType {
  t_name : string;
  t_syntax : option syntax
}.

Definition TRIPLET_TYPES : list (Z * TripletType) := [
  (TT_01, mk_TripletType "Coded Graphic Character Set Global Identifier" (Some SYNTAX_TRIPLET_01));
  (TT_02, mk_TripletType "Fully Qualified Name" (Some SYNTAX_TRIPLET_02));
  (TT_18, mk_TripletType "MO:DCA Interchange Set" (Some SYNTAX_TRIPLET_18));
  (TT_21, mk_TripletType "Resource Object Type" (Some SYNTAX_TRIPLET_21));
  (TT_24, mk_TripletType "Resource Local Identifier" (Some SYNTAX_TRIPLET_24));
  (TT_25, mk_TripletType "Resource Section Number" (Some SYNTAX_TRIPLET_25));
  (TT_26, mk_TripletType "Character Rotation" (Some SYNTAX_TRIPLET_26));
  (TT_2D, mk_TripletType "Object Byte Offset" (Some SYNTAX_TRIPLET_2D));
  (TT_36, mk_TripletType "Attribute Value" (Some SYNTAX_TRIPLET_36));
  (TT_56, mk_TripletType "Medium Map Page Number" (Some SYNTAX_TRIPLET_56));
  (TT_57, mk_TripletType "Object Byte Extent" (Some SYNTAX_TRIPLET_57));
  (TT_58, mk_TripletType "Object Structured Field Offset" (Some SYNTAX_TRIPLET_58));
  (TT_59, mk_TripletType "Object Structured Field Extent" (Some SYNTAX_TRIPLET_59));
  (TT_62, mk_TripletType "Local Date and Time Stamp" (Some SYNTAX_TRIPLET_62));
  (TT_68, mk_TripletType "Medium Orientation" (Some SYNTAX_TRIPLET_68));
  (TT_80, mk_TripletType "Attribute Qualifier" (Some SYNTAX_TRIPLET_80))
].

End triplets.

(* ================================================================= *)
(** ** functions.py *)

Module functions.
Import fields.

Local Abbreviation P o l t n m f := (SParam (mk_ParameterType o l t n m f)).

(** Property Names *)
Definition PNAME_CS_LENGTH : string := "LENGTH".
Definition PNAME_CS_TYPE : string := "TYPE".

(** The raw syntax, and the syntaxes of the functions the package defines. *)

Definition SYNTAX_FUNCTION_RAW : syntax := [
  P 0 0 PTYPE_BYTE "DATA" true None
].

Definition SYNTAX_FUNCTION_AMB : syntax := [
  P 0 2 PTYPE_SBIN "DSPLCMNT" true None
].

Definition SYNTAX_FUNCTION_AMI : syntax := [
  P 0 2 PTYPE_SBIN "DSPLCMNT" true None
].

Definition SYNTAX_FUNCTION_BSU : syntax := [
  P 0 1 PTYPE_CODE "LID" true None
].

Definition SYNTAX_FUNCTION_DBR : syntax := [
  P 0 2 PTYPE_SBIN "RLENGTH" true None;
  P 2 3 PTYPE_SBIN "RWIDTH" false None
].

Definition SYNTAX_FUNCTION_DIR : syntax := [
  P 0 2 PTYPE_SBIN "RLENGTH" true None;
  P 2 3 PTYPE_SBIN "RWIDTH" false None
].

Definition SYNTAX_FUNCTION_ESU : syntax := [
  P 0 1 PTYPE_CODE "LID" true None
].

Definition SYNTAX_FUNCTION_NOP : syntax := [
  P 0 0 PTYPE_BYTE "IGNDATA" false None
].

Definition SYNTAX_FUNCTION_RMB : syntax := [
  P 0 2 PTYPE_SBIN "INCRMENT" true None
].

Definition SYNTAX_FUNCTION_RMI : syntax := [
  P 0 2 PTYPE_SBIN "INCRMENT" true None
].

Definition SYNTAX_FUNCTION_RPS : syntax := [
  P 0 2 PTYPE_UBIN "RLENGTH" true None;
  P 2 0 PTYPE_CHAR "RPTDATA" false None
].

Definition SYNTAX_FUNCTION_SCFL : syntax := [
  P 0 1 PTYPE_CODE "LID" true None
].

Definition SYNTAX_FUNCTION_STC : syntax := [
  P 0 2 PTYPE_CODE "FRGCOLOR" true None;
  P 2 1 PTYPE_BYTE "PRECSION" false None
].

Definition SYNTAX_FUNCTION_STO : syntax := [
  P 0 2 PTYPE_CODE "IORNTION" true None;
  P 2 2 PTYPE_CODE "BORNTION" true None
].

Definition SYNTAX_FUNCTION_SVI : syntax := [
  P 0 2 PTYPE_SBIN "INCRMENT" true None
].

Definition SYNTAX_FUNCTION_TRN : syntax := [
  P 0 0 PTYPE_CHAR "TRNDATA" false None
].

Record Function : Type := mk_Function {
  fn_abbreviation : string;
  fn_name : string;
  fn_syntax : option syntax
}.

Definition FN_INFO_AMB : Function := mk_Function "AMB" "Absolute Move Baseline" (Some SYNTAX_FUNCTION_AMB).
Definition FN_INFO_AMI : Function := mk_Function "AMI" "Absolute Move Inline" (Some SYNTAX_FUNCTION_AMI).
Definition FN_INFO_BSU : Function := mk_Function "BSU" "Begin Suppression" (Some SYNTAX_FUNCTION_BSU).
Definition FN_INFO_DBR : Function := mk_Function "DBR" "Draw Baseline Rule" (Some SYNTAX_FUNCTION_DBR).
Definition FN_INFO_DIR : Function := mk_Function "DIR" "Draw Inline Rule" (Some SYNTAX_FUNCTION_DIR).
Definition FN_INFO_ESU : Function := mk_Function "ESU" "End Suppression" (Some SYNTAX_FUNCTION_ESU).
Definition FN_INFO_RMB : Function := mk_Function "RMB" "Relative Move Baseline" (Some SYNTAX_FUNCTION_RMB).
Definition FN_INFO_RMI : Function := mk_Function "RMI" "Relative Move Inline" (Some SYNTAX_FUNCTION_RMI).
Definition FN_INFO_RPS : Function := mk_Function "RPS" "Repeat String" (Some SYNTAX_FUNCTION_RPS).
Definition FN_INFO_SCFL : Function := mk_Function "SCFL" "Set Coded Font Local" (Some SYNTAX_FUNCTION_SCFL).
Definition FN_INFO_STC : Function := mk_Function "STC" "Set Text Color" (Some SYNTAX_FUNCTION_STC).
Definition FN_INFO_STO : Function := mk_Function "STO" "Set Text Orientation" (Some SYNTAX_FUNCTION_STO).
Definition FN_INFO_SVI : Function := mk_Function "SVI" "Set Variable Space Character Increment" (Some SYNTAX_FUNCTION_SVI).
Definition FN_INFO_TRN : Function := mk_Function "TRN" "Transparent Data" (Some SYNTAX_FUNCTION_TRN).
Definition FN_INFO_NOP : Function := mk_Function "NOP" "No Operation" (Some SYNTAX_FUNCTION_NOP).

(** Unchained and chained function identifiers. *)
Definition FN_U_AMB : Z := 0xD2.
Definition FN_U_AMI : Z := 0xC6.
Definition FN_U_BSU : Z := 0xF2.
Definition FN_U_DBR : Z := 0xE6.
Definition FN_U_DIR : Z := 0xE4.
Definition FN_U_ESU : Z := 0xF4.
Definition FN_U_RMB : Z := 0xD4.
Definition FN_U_RMI : Z := 0xC8.
Definition FN_U_RPS : Z := 0xEE.
Definition FN_U_SCFL : Z := 0xF0.
Definition FN_U_STC : Z := 0x74.
Definition FN_U_STO : Z := 0xF6.
Definition FN_U_SVI : Z := 0xC4.
Definition FN_U_TRN : Z := 0xDA.
Definition FN_U_NOP : Z := 0xF8.
Definition FN_C_AMB : Z := 0xD3.
Definition FN_C_AMI : Z := 0xC7.
Definition FN_C_BSU : Z := 0xF3.
Definition FN_C_DBR : Z := 0xE7.
Definition FN_C_DIR : Z := 0xE5.
Definition FN_C_ESU : Z := 0xF5.
Definition FN_C_RMB : Z := 0xD5.
Definition FN_C_RMI : Z := 0xC9.
Definition FN_C_RPS : Z := 0xEF.
Definition FN_C_SCFL : Z := 0xF1.
Definition FN_C_STC : Z := 0x75.
Definition FN_C_STO : Z := 0xF7.
Definition FN_C_SVI : Z := 0xC5.
Definition FN_C_TRN : Z := 0xDB.
Definition FN_C_NOP : Z := 0xF9.

Definition FUNCTIONS : list (Z * Function) := [
  (FN_U_AMB, FN_INFO_AMB);
  (FN_U_AMI, FN_INFO_AMI);
  (FN_U_BSU, FN_INFO_BSU);
  (FN_U_DBR, FN_INFO_DBR);
  (FN_U_DIR, FN_INFO_DIR);
  (FN_U_ESU, FN_INFO_ESU);
  (FN_U_RMB, FN_INFO_RMB);
  (FN_U_RMI, FN_INFO_RMI);
  (FN_U_RPS, FN_INFO_RPS);
  (FN_U_SCFL, FN_INFO_SCFL);
  (FN_U_STC, FN_INFO_STC);
  (FN_U_STO, FN_INFO_STO);
  (FN_U_SVI, FN_INFO_SVI);
  (FN_U_TRN, FN_INFO_TRN);
  (FN_U_NOP, FN_INFO_NOP);
  (FN_C_AMB, FN_INFO_AMB);
  (FN_C_AMI, FN_INFO_AMI);
  (FN_C_BSU, FN_INFO_BSU);
  (FN_C_DBR, FN_INFO_DBR);
  (FN_C_DIR, FN_INFO_DIR);
  (FN_C_ESU, FN_INFO_ESU);
  (FN_C_RMB, FN_INFO_RMB);
  (FN_C_RMI, FN_INFO_RMI);
  (FN_C_RPS, FN_INFO_RPS);
  (FN_C_SCFL, FN_INFO_SCFL);
  (FN_C_STC, FN_INFO_STC);
  (FN_C_STO, FN_INFO_STO);
  (FN_C_SVI, FN_INFO_SVI);
  (FN_C_TRN, FN_INFO_TRN);
  (FN_C_NOP, FN_INFO_NOP)
].

(** Return true if the function is unchained. *)
Definition unchained_function (function : Z) : bool := function mod 2 =? 0.

(** Return true if the function is chained. *)
Definition chained_function (function : Z) : bool := negb (unchained_function function).

End functions.
(* ================================================================= *)
(** ** parser.py *)

Module parser.
Import fields.

Definition CARRIAGE_CONTROL_CHAR : Z := 0x5A.
Definition PTX_ESCAPE_SEQUENCE : Z := 0x2BD3.

(** Parameter Names *)
Definition PNAME_EXCEPTIONS : string := "_exceptions".
Definition PNAME_REPEATING_GROUP : string := "RepeatingGroup".

Definition MODCA_CLASS_CODE : Z := 0xD3.

(** Holds the configuration of the parser. *)
Record ParserConfig : Type := mk_ParserConfig {
  allow_unknown_fields : bool;
  allow_unknown_triplets : bool;
  allow_unknown_functions : bool;
  strict : bool
}.

(** The keyword defaults of [stream] and [load]. *)
Definition default_config : ParserConfig := mk_ParserConfig false false false false.

(** [try: m except cls as e: handler(e)] *)
Definition try_except {A : Type} (c : exc_class) (m : outcome A)
           (handler : exn -> outcome A) : outcome A :=
  match m with
  | Raise e => if exc_class_eqb (cls e) c then handler e else Raise e
  | _ => m
  end.

(** [k in d] and [d[k]] for the tables keyed by an integer. *)
Fixpoint lookup_id {V : Type} (d : list (Z * V)) (k : Z) : option V :=
  match d with
  | [] => None
  | (k', v) :: d' => if k' =? k then Some v else lookup_id d' k
  end.

(** The loop [u = 0; for b in b: u = u << 8; u += b]. *)
Definition ubin_of_bytes (b : list byte) : Z :=
  fold_left (fun u b => Z.shiftl u 8 + byte_val b) b 0.

(** Read n bytes from file f. *)
Definition read_bytes (f : file) (n : Z) : outcome (option (list byte) * file) :=
  '(s, f) <- read f n ;;
  if len s =? 0 then Ok (None, f)
  else if negb (len s =? n)
  then Raise (exceptions.new EOFWhileReadingError "Unexpected EOF while reading file")
  else Ok (Some s, f).

(** Read a byte from file f. *)
Definition read_byte (f : file) : outcome (option Z * file) :=
  '(b, f) <- read_bytes f 1 ;;
  match b with
  | None => Ok (None, f)
  | Some b => b0 <- index b 0 ;; Ok (Some (byte_val b0), f)
  end.

(** Read an unsigned binary number n bytes long from file f. *)
Definition read_ubin (f : file) (n : Z) : outcome (option Z * file) :=
  '(b, f) <- read_bytes f n ;;
  match b with
  | None => Ok (None, f)
  | Some b => Ok (Some (ubin_of_bytes b), f)
  end.

(** Return the number of bytes in a particular syntax definition; zero when
    a parameter is optional or has an undefined length. A nested list has no
    attribute [mandatory]. *)
Fixpoint syntax_length_from (length : Z) (syntax : syntax) : outcome Z :=
  match syntax with
  | [] => Ok length
  | SParam param :: syntax' =>
      if negb (mandatory param) || (fields.length param =? 0) then Ok 0
      else syntax_length_from (length + fields.length param) syntax'
  | SGroup _ :: _ =>
      Raise (exceptions.new AttributeError "'list' object has no attribute 'mandatory'")
  end.

Definition syntax_length (syntax : syntax) : outcome Z := syntax_length_from 0 syntax.

(** Read n bytes from the byte buffer data starting at specified offset. *)
Definition parse_bytes (data : list byte) (n : Z) (offset : Z)
  : outcome (option (list byte)) :=
  (* An n value of zero means read rest of stream *)
  let n := if n =? 0 then len data - offset else n in
  if offset >=? len data then Ok None
  else if offset + n >? len data then
    Raise (exceptions.new EOSWhileReadingError
             ("Out of data while parsing " ++ str_int n ++ " byte(s) from offset "
              ++ str_int offset ++ " of " ++ repr_list (map byte_val data))%string)
  else
    b <- comprehension (index data) (range offset (offset + n)) ;;
    Ok (Some b).

(** Parse an unsigned binary number n bytes long. *)
Definition parse_ubin (data : list byte) (n : Z) (offset : Z) : outcome (option Z) :=
  b <- parse_bytes data n offset ;;
  match b with
  | None => Ok None
  | Some b => Ok (Some (ubin_of_bytes b))
  end.

(** Parse a signed binary number n bytes long. *)
Definition parse_sbin (data : list byte) (n : Z) (offset : Z) : outcome (option Z) :=
  i <- parse_ubin data n offset ;;
  match i with
  | None => Ok None
  | Some i =>
      if (n * 8) - 1 <? 0
      then Raise (exceptions.new ValueError "negative shift count")
      else if negb (Z.land i (Z.shiftl 1 ((n * 8) - 1)) =? 0)
      then Ok (Some (i - Z.shiftl 1 (n * 8)))
      else Ok (Some i)
  end.

(** Parse a code (effectively an unsigned binary number) n bytes long. *)
Definition parse_code (data : list byte) (n : Z) (offset : Z) : outcome (option Z) :=
  parse_ubin data n offset.

(** Parse text data n bytes long. *)
Definition parse_chars (data : list byte) (n : Z) (offset : Z) : outcome (option string) :=
  b <- parse_bytes data n offset ;;
  match b with
  | None => Ok None
  | Some b => Ok (Some (strip (cp500_decode b)))
  end.

(** The type of [parse_syntax], which the two drivers below call back:
    data, syntax, configuration, [result] and [param_appearance_counters]
    (both optional), giving the result dictionary, the counters as the call
    leaves them, and the number of bytes in the data. *)
Definition parse_fn : Type :=
  option (list byte) -> syntax -> ParserConfig ->
  option (dict value) -> option (dict Z) ->
  outcome (dict value * dict Z * Z).

Section Drivers.

Variable parse_syntax : parse_fn.

(** The [while p < len(data)] loop of [parse_triplets]. *)
Fixpoint parse_triplets_loop (fuel : nat) (data : list byte)
         (parser_config : ParserConfig) (p i : Z) (triplet_list : list value)
  : outcome (list value) :=
  if p <? len data then
    match fuel with
    | O => OutOfFuel
    | S fuel' =>
        t_length <- parse_ubin data 1 p ;;
        t_id <- parse_code data 1 (p + 1) ;;
        match t_id with
        | None =>
            Raise (exceptions.new InvalidTripletError
                     ("Not enough data to parse triplet " ++ str_int (i + 1) ++ " Id")%string)
        | Some t_id =>
            (* Check we know about the triplet type *)
            triplet_type <-
              match lookup_id triplets.TRIPLET_TYPES t_id with
              | Some t => Ok (Some t)
              | None =>
                  if negb (allow_unknown_triplets parser_config)
                  then Raise (exceptions.new UnrecognizedTripletError
                                ("Unrecognized triplet 0x" ++ format_X 2 t_id)%string)
                  else Ok None
              end ;;
            t_length <-
              match t_length with
              | Some l => Ok l
              | None => Raise (exceptions.new TypeError "unsupported operand type(s) for -")
              end ;;
            (* Get the rest of the triplet data *)
            contents <-
              try_except EOSWhileReadingError
                (contents <- parse_bytes data (t_length - 2) (p + 2) ;;
                 match contents with
                 | None =>
                     Raise (exceptions.new InvalidTripletError
                              ("Not enough data to parse triplet " ++ str_int (i + 1)
                               ++ " contents")%string)
                 | Some contents => Ok contents
                 end)
                (fun _ =>
                   Raise (exceptions.new InvalidTripletError
                            ("Not enough data to parse triplet " ++ str_int (i + 1)
                             ++ " contents")%string)) ;;
            (* Parse the contents *)
            let syntax :=
              match triplet_type with
              | Some t =>
                  match triplets.t_syntax t with
                  | Some s => s
                  | None => triplets.SYNTAX_TRIPLET_RAW
                  end
              | None => triplets.SYNTAX_TRIPLET_RAW
              end in
            '(triplet, _, _) <- parse_syntax (Some contents) syntax parser_config None None ;;
            let triplet := setitem triplet triplets.PNAME_T_LENGTH (VInt t_length) in
            let triplet := setitem triplet triplets.PNAME_T_ID (VInt t_id) in
            parse_triplets_loop fuel' data parser_config (p + t_length) (i + 1)
                                (triplet_list ++ [VDict triplet])
        end
    end
  else Ok triplet_list.

(** Parse triplets from byte buffer data starting at specified offset. *)
Definition parse_triplets (fuel : nat) (data : list byte)
           (parser_config : ParserConfig) (offset : Z) : outcome (list value) :=
  parse_triplets_loop fuel data parser_config offset 0 [].

(** The [while p < len(data)] loop of [parse_ptoca], with the test of
    [chained] that follows it. *)
Fixpoint parse_ptoca_loop (fuel : nat) (data : list byte)
         (parser_config : ParserConfig) (chained : bool) (p i : Z)
         (ctrl_sequences : list value) : outcome (list value) :=
  if p <? len data then
    match fuel with
    | O => OutOfFuel
    | S fuel' =>
        p <-
          (if negb chained then
             (* Consume the escape sequence before an unchained control sequence *)
             escape_sequence <-
               try_except EOSWhileReadingError (parse_ubin data 2 p)
                 (fun _ =>
                    Raise (exceptions.new InvalidControlSequenceError
                             ("Not enough data to parse control sequence " ++ str_int (i + 1)
                              ++ " escape sequence")%string)) ;;
             match escape_sequence with
             | Some e =>
                 if e =? PTX_ESCAPE_SEQUENCE then Ok (p + 2)
                 else Raise (exceptions.new InvalidControlSequenceError
                               ("Missing 0x" ++ format_X 0 PTX_ESCAPE_SEQUENCE
                                ++ " escape sequence before control sequence "
                                ++ str_int (i + 1))%string)
             | None =>
                 Raise (exceptions.new InvalidControlSequenceError
                          ("Missing 0x" ++ format_X 0 PTX_ESCAPE_SEQUENCE
                           ++ " escape sequence before control sequence "
                           ++ str_int (i + 1))%string)
             end
           else Ok p) ;;
        length <- parse_ubin data 1 p ;;
        match length with
        | None =>
            Raise (exceptions.new InvalidControlSequenceError
                     ("Not enough data to parse control sequence " ++ str_int (i + 1)
                      ++ " length")%string)
        | Some length =>
            let p := p + 1 in
            function <- parse_ubin data 1 p ;;
            match function with
            | None =>
                Raise (exceptions.new InvalidControlSequenceError
                         ("Not enough data to parse control sequence " ++ str_int (i + 1)
                          ++ " function")%string)
            | Some function =>
                let p := p + 1 in
                (* Lookup the function *)
                fn_info <-
                  match lookup_id functions.FUNCTIONS function with
                  | Some fn => Ok (Some fn)
                  | None =>
                      if negb (allow_unknown_functions parser_config)
                      then Raise (exceptions.new UnknownFunctionError
                                    ("Unknown function 0x" ++ format_X 0 function)%string)
                      else Ok None
                  end ;;
                (* Get the rest of the control sequence data *)
                function_data <-
                  try_except EOSWhileReadingError
                    (function_data <- parse_bytes data (length - 2) p ;;
                     match function_data with
                     | None =>
                         if length - 2 >? 0
                         then Raise (exceptions.new InvalidControlSequenceError
                                       ("Not enough data to parse control sequence "
                                        ++ str_int (i + 1) ++ " function data")%string)
                         else Ok None
                     | Some d => Ok (Some d)
                     end)
                    (fun _ =>
                       Raise (exceptions.new InvalidControlSequenceError
                                ("Not enough data to parse control sequence "
                                 ++ str_int (i + 1) ++ " function data")%string)) ;;
                let p := p + (length - 2) in
                (* Parse the control sequence *)
                let syntax :=
                  match fn_info with
                  | Some fn =>
                      match functions.fn_syntax fn with
                      | Some s => s
                      | None => functions.SYNTAX_FUNCTION_RAW
                      end
                  | None => functions.SYNTAX_FUNCTION_RAW
                  end in
                '(ctrl_sequence, _, _) <-
                  parse_syntax function_data syntax parser_config None None ;;
                let ctrl_sequence :=
                  setitem ctrl_sequence functions.PNAME_CS_LENGTH (VInt length) in
                let ctrl_sequence :=
                  setitem ctrl_sequence functions.PNAME_CS_TYPE (VInt function) in
                parse_ptoca_loop fuel' data parser_config
                                 (functions.chained_function function) p (i + 1)
                                 (ctrl_sequences ++ [VDict ctrl_sequence])
            end
        end
    end
  else if chained
  then Raise (exceptions.new InvalidControlSequenceError "Final function is chained")
  else Ok ctrl_sequences.

(** Parse PTOCA data from byte buffer data starting at specified offset. *)
Definition parse_ptoca (fuel : nat) (data : list byte)
           (parser_config : ParserConfig) (offset : Z) : outcome (list value) :=
  (* First is always unchained *)
  parse_ptoca_loop fuel data parser_config false offset 0 [].

End Drivers.

(** Add a parameter to the parse result dictionary; returns the unique name
    with the two dictionaries as the call leaves them. *)
Definition _add_param (name : string) (value : value) (result : dict Py.value)
           (param_appearance_counters : dict Z)
  : outcome (string * dict Py.value * dict Z) :=
  if negb (contains result name) then
    let param_appearance_counters := setitem param_appearance_counters name 1 in
    let unique_name := name in
    Ok (unique_name, setitem result unique_name value, param_appearance_counters)
  else
    (* Param name already exists - append a counter *)
    c <- getitem param_appearance_counters name ;;
    let param_appearance_counters := setitem param_appearance_counters name (c + 1) in
    let unique_name := (name ++ "-" ++ str_int (c + 1))%string in
    Ok (unique_name, setitem result unique_name value, param_appearance_counters).

(** Add an exception to the parse result, under the special key _exceptions. *)
Definition _add_exception (e : exn) (result : dict value) : outcome (dict value) :=
  let result :=
    if negb (contains result PNAME_EXCEPTIONS)
    then setitem result PNAME_EXCEPTIONS (VList [])
    else result in
  l <- getitem result PNAME_EXCEPTIONS ;;
  match l with
  | VList l =>
      Ok (setitem result PNAME_EXCEPTIONS
                  (VList (l ++ [VTuple [VInt (modca_code (cls e)); VStr (str e)]])))
  | _ => Raise (exceptions.new AttributeError "object has no attribute 'append'")
  end.

(** The local variables of [parse_syntax] that the loop over the syntax
    updates. [next_group_length] can become [None]: it is assigned a decoded
    value, which is [None] when there is no data. *)
Record locals : Type := mk_locals {
  data : list byte;
  result : dict value;
  param_appearance_counters : dict Z;
  next_group_length : option Z;
  next_field_offset : Z
}.

Definition set_result (st : locals) (r : dict value) : locals :=
  mk_locals (data st) r (param_appearance_counters st)
            (next_group_length st) (next_field_offset st).

(** [type(value) == list and len(value) == 0] *)
Definition is_empty_list (v : value) : bool :=
  match v with
  | VList [] => true
  | _ => false
  end.

Definition missing_message (param : ParameterType) : string :=
  ("Required parameter missing: " ++ name param)%string.

Definition incomplete_message (param : ParameterType) : string :=
  ("Not enough data to parse parameter " ++ name param)%string.

(** Lines 419 to 434: what becomes of a decoded value. A value that is
    neither [None] nor an empty list is added to the result; otherwise a
    mandatory parameter is reported missing. *)
Definition store_param (parser_config : ParserConfig) (param : ParameterType)
           (value : option value) (st : locals) : outcome locals :=
  st <-
    match value with
    | Some v =>
        if negb (is_empty_list v) then
          '(_, r, c) <- _add_param (name param) v (result st) (param_appearance_counters st) ;;
          Ok (mk_locals (data st) r c (next_group_length st) (next_field_offset st))
        else if mandatory param then
          let e := exceptions.new RequiredParameterMissingError (missing_message param) in
          if strict parser_config then Raise e
          else r <- _add_exception e (result st) ;; Ok (set_result st r)
        else Ok st
    | None =>
        if mandatory param then
          let e := exceptions.new RequiredParameterMissingError (missing_message param) in
          if strict parser_config then Raise e
          else r <- _add_exception e (result st) ;; Ok (set_result st r)
        else Ok st
    end ;;
  Ok (mk_locals (data st) (result st) (param_appearance_counters st)
                (next_group_length st) (offset param + fields.length param)).

(** [if param.preproc is not None: param = param.preproc(result, param)] *)
Definition run_preproc (result : dict value) (param : ParameterType)
  : outcome (option ParameterType) :=
  match preproc param with
  | Some f => call_preproc f result param
  | None => Ok (Some param)
  end.

Section Interpreter.

(** The recursive calls of [parse_syntax] (from a repeating group, from the
    triplet and the PTOCA drivers) go through [rec]; [fuel] bounds the number
    of iterations of each while loop. *)
Variable rec : parse_fn.
Variable fuel : nat.
Variable parser_config : ParserConfig.

(** The dispatch on [param.datatype]: the decoded value, with the locals as
    the UBIN branch leaves them. *)
Definition decode_param (param : ParameterType) (st : locals)
  : outcome (option value * locals) :=
  match datatype param with
  | PTYPE_CODE =>
      v <- parse_code (data st) (fields.length param) (offset param) ;;
      Ok (option_map VInt v, st)
  | PTYPE_BYTE =>
      v <- parse_bytes (data st) (fields.length param) (offset param) ;;
      match v with
      | Some b =>
          if fields.length param =? 1
          then b0 <- index b 0 ;; Ok (Some (VInt (byte_val b0)), st)
          else Ok (Some (VList (map (fun x => VInt (byte_val x)) b)), st)
      | None => Ok (None, st)
      end
  | PTYPE_UBIN =>
      v <- parse_ubin (data st) (fields.length param) (offset param) ;;
      st <-
        match preproc param with
        | None => Ok st
        | Some f =>
            st <-
              (if preproc_fn_eqb f _next_group_length then
                 (* This parameter defines the length of the next group *)
                 if match v with Some 0 => true | _ => false end
                 then Raise (exceptions.new RepeatingGroupError
                               "Repeating group length cannot be zero")
                 else Ok (mk_locals (data st) (result st) (param_appearance_counters st)
                                    v (next_field_offset st))
               else Ok st) ;;
            if preproc_fn_eqb f _this_group_length then
              (* This parameter defines the length of the current group *)
              match v with
              | Some value =>
                  if value =? 0
                  then Raise (exceptions.new RepeatingGroupError
                                "Repeating group length cannot be zero")
                  else if value >? len (data st)
                  then Raise (exceptions.new RepeatingGroupError
                                "Repeating group length longer than available data")
                  else Ok (mk_locals (slice (data st) 0 value) (result st)
                                     (param_appearance_counters st)
                                     (next_group_length st) (next_field_offset st))
              | None =>
                  Raise (exceptions.new TypeError
                           "'>' not supported between instances of 'NoneType' and 'int'")
              end
            else Ok st
        end ;;
      Ok (option_map VInt v, st)
  | PTYPE_SBIN =>
      v <- parse_sbin (data st) (fields.length param) (offset param) ;;
      Ok (option_map VInt v, st)
  | PTYPE_CHAR =>
      v <- parse_chars (data st) (fields.length param) (offset param) ;;
      Ok (option_map VStr v, st)
  | PTYPE_TRIPLET =>
      v <- parse_triplets rec fuel (data st) parser_config (offset param) ;;
      Ok (Some (VList v), st)
  | PTYPE_PTOCA =>
      v <- parse_ptoca rec fuel (data st) parser_config (offset param) ;;
      Ok (Some (VList v), st)
  end.

(** A regular parameter, once the preprocessor has kept it. *)
Definition parse_param (param : ParameterType) (st : locals) : outcome locals :=
  '(value, st) <- decode_param param st ;;
  store_param parser_config param value st.

(** The [while repeating_group_offset < len(data)] loop of a repeating
    group. *)
Fixpoint repeating_group_loop (n : nat) (data : list byte)
         (next_group_length : option Z) (param : syntax)
         (repeating_group_offset : Z) (value : list Py.value)
  : outcome (list Py.value * Z) :=
  if repeating_group_offset <? len data then
    match n with
    | O => OutOfFuel
    | S n' =>
        repeating_group_data <-
          match next_group_length with
          | Some 0 => Ok (slice_from data repeating_group_offset)
          | Some l =>
              if repeating_group_offset + l >? len data
              then Raise (exceptions.new RepeatingGroupError
                            "Repeating group length longer than available data")
              else Ok (slice data repeating_group_offset (repeating_group_offset + l))
          | None =>
              Raise (exceptions.new TypeError
                       "unsupported operand type(s) for +: 'int' and 'NoneType'")
          end ;;
        '(nested_group_result, _, bytes_processed) <-
          rec (Some repeating_group_data) param parser_config None None ;;
        repeating_group_loop n' data next_group_length param
                             (repeating_group_offset + bytes_processed)
                             (value ++ [VDict nested_group_result])
    end
  else Ok (value, repeating_group_offset).

(** A parameter that is a list: a repeating group. *)
Definition parse_group (param : syntax) (st : locals) : outcome locals :=
  next_group_length <-
    match next_group_length st with
    | Some 0 => l <- syntax_length param ;; Ok (Some l)
    | l => Ok l
    end ;;
  '(value, repeating_group_offset) <-
    repeating_group_loop fuel (data st) next_group_length param (next_field_offset st) [] ;;
  '(r, c) <-
    (if len value >? 0 then
       '(_, r, c) <- _add_param PNAME_REPEATING_GROUP (VList value) (result st)
                                (param_appearance_counters st) ;;
       Ok (r, c)
     else Ok (result st, param_appearance_counters st)) ;;
  (* Reset the next repeating group length after we've processed the group *)
  Ok (mk_locals (data st) r c (Some 0) repeating_group_offset).

(** How the loop over the syntax ends: it runs to its end, or an element
    raises; the handler of [parse_syntax] then sees the loop variable
    [param] and the locals as they are at the raise. *)
Inductive walk_end : Type :=
| Finished (st : locals)
| Raised (e : exn) (param : elem) (st : locals)
| Unfinished.

(** [for param in syntax: ...] *)
Fixpoint walk (syntax : syntax) (st : locals) : walk_end :=
  match syntax with
  | [] => Finished st
  | SGroup g :: syntax' =>
      match parse_group g st with
      | Ok st' => walk syntax' st'
      | Raise e => Raised e (SGroup g) st
      | OutOfFuel => Unfinished
      end
  | SParam param :: syntax' =>
      match run_preproc (result st) param with
      | Ok (Some param') =>
          match parse_param param' st with
          | Ok st' => walk syntax' st'
          | Raise e => Raised e (SParam param') st
          | OutOfFuel => Unfinished
          end
      (* Preprocessor function can return None to skip the field *)
      | Ok None => walk syntax' st
      | Raise e => Raised e (SParam param) st
      | OutOfFuel => Unfinished
      end
  end.

(** The [except exceptions.EOSWhileReadingError] clause of [parse_syntax]. *)
Definition convert_eos (param : ParameterType) : exn :=
  if mandatory param
  then exceptions.new RequiredParameterMissingError (missing_message param)
  else exceptions.new IncompleteParameterError (incomplete_message param).

(** How [parse_syntax] returns once the loop has ended: the result and the
    length of the data, or, after an end-of-stream error, the error that
    replaces it: raised in strict mode, added to the result otherwise. *)
Definition after_walk (w : walk_end) : outcome (dict value * dict Z * Z) :=
  match w with
  | Finished st => Ok (result st, param_appearance_counters st, len (data st))
  | Raised e param st =>
      if exc_class_eqb (cls e) EOSWhileReadingError then
        match param with
        | SParam param =>
            let e := convert_eos param in
            if strict parser_config then Raise e
            else
              r <- _add_exception e (result st) ;;
              Ok (r, param_appearance_counters st, len (data st))
        | SGroup _ =>
            Raise (exceptions.new AttributeError
                     "'list' object has no attribute 'mandatory'")
        end
      else Raise e
  | Unfinished => OutOfFuel
  end.

(** The body of [parse_syntax]. *)
Definition parse_syntax_body (data : option (list byte)) (syntax : syntax)
           (result : option (dict value)) (param_appearance_counters : option (dict Z))
  : outcome (dict value * dict Z * Z) :=
  let result := match result with Some r => r | None => [] end in
  let param_appearance_counters :=
    match param_appearance_counters with Some c => c | None => [] end in
  let data := match data with Some d => d | None => [] end in
  after_walk (walk syntax (mk_locals data result param_appearance_counters (Some 0) 0)).

End Interpreter.

(** Parse a syntax - this can be a structured field, a triplet or a PTOCA
    function. With fuel [n] the calls nest at most [n] deep and every while
    loop runs at most [n - 1] times. *)
Fixpoint parse_syntax (fuel : nat) : parse_fn :=
  match fuel with
  | O => fun _ _ _ _ _ => OutOfFuel
  | S fuel' =>
      fun data syntax parser_config result param_appearance_counters =>
        parse_syntax_body (parse_syntax fuel') fuel' parser_config
                          data syntax result param_appearance_counters
  end.

(** An operand of [&] or [+] that has to be an integer. *)
Definition as_int (v : value) : outcome Z :=
  match v with
  | VInt z => Ok z
  | _ => Raise (exceptions.new TypeError "unsupported operand type(s)")
  end.

(** Read a structured field from file f: [None] at the end of the file,
    otherwise the dictionary of all its parameters, with the file as the
    reads leave it. *)
Definition read_structured_field (fuel : nat) (f : file) (parser_config : ParserConfig)
  : outcome (option (dict value) * file) :=
  (* Read the record beginning marker *)
  '(b, f) <- read_byte f ;;
  match b with
  | None => Ok (None, f)
  | Some b =>
      if negb (b =? CARRIAGE_CONTROL_CHAR) then
        Raise (exceptions.new InvalidStructuredFieldError
                 ("Missing 0x" ++ format_X 2 CARRIAGE_CONTROL_CHAR
                  ++ " carriage control character")%string)
      else
        (* Read the field length *)
        '(sf_length, f) <-
          try_except EOFWhileReadingError
            ('(sf_length, f) <- read_ubin f 2 ;;
             match sf_length with
             | None =>
                 Raise (exceptions.new InvalidStructuredFieldError
                          "Missing structured field length")
             | Some l => Ok (l, f)
             end)
            (fun _ =>
               Raise (exceptions.new InvalidStructuredFieldError
                        "Not enough data to read structured field length")) ;;
        (* Read the rest of the field - excluding the 2 bytes for the length *)
        '(data, f) <-
          try_except EOFWhileReadingError
            ('(data, f) <- read_bytes f (sf_length - 2) ;;
             match data with
             | None =>
                 Raise (exceptions.new InvalidStructuredFieldError
                          "Structured field incorrect length")
             | Some d => Ok (d, f)
             end)
            (fun _ =>
               Raise (exceptions.new InvalidStructuredFieldError
                        "Not enough data to read structured field")) ;;
        (* Parse the Structured Field Introducer *)
        '(sf, param_appearance_counters, _) <-
          parse_syntax fuel (Some data) SYNTAX_SFI parser_config None (Some []) ;;
        let sf := setitem sf PNAME_SF_LENGTH (VInt sf_length) in
        type_id <- getitem sf PNAME_SF_TYPE_ID ;;
        type_id <- as_int type_id ;;
        if negb (Z.shiftr (Z.land type_id 0xFF0000) 16 =? MODCA_CLASS_CODE) then
          Raise (exceptions.new UnrecognizedIdentifierCodeError
                   ("Unrecognized class code 0x" ++ format_X 6 type_id
                    ++ " - MO:DCA uses class code 0x" ++ format_X 2 MODCA_CLASS_CODE)%string)
        else
          (* The parser doesn't currently support structured field padding *)
          flag_byte <- getitem sf PNAME_FLAG_BYTE ;;
          pad <- sfi_pad_flag flag_byte ;;
          if pad then
            Raise (exceptions.new PaddingNotImplementedError
                     "Structured Field padding is not supported")
          else
            (* Find the structured field type info *)
            sf_type <-
              match lookup_id SF_TYPES type_id with
              | Some t => Ok (Some t)
              | None =>
                  if negb (allow_unknown_fields parser_config)
                  then Raise (exceptions.new UnrecognizedStructuredFieldError
                                ("Unrecognized structured field 0x"
                                 ++ format_X 6 type_id)%string)
                  else Ok None
              end ;;
            _ <- sfi_seg_flag flag_byte ;;
            ext <- sfi_ext_flag flag_byte ;;
            (* the arguments of the debug message that is built when the
               extension flag is set *)
            _ <- (if ext
                  then _ <- getitem sf PNAME_EXT_LENGTH ;; getitem sf PNAME_EXT_DATA
                  else Ok (VInt 0)) ;;
            (* Get the rest of the field data *)
            field_data_start <-
              (if ext
               then l <- getitem sf PNAME_EXT_LENGTH ;; l <- as_int l ;; Ok (6 + l)
               else Ok 6) ;;
            let field_data := slice_from data field_data_start in
            (* Parse the field data *)
            let syntax :=
              match sf_type with
              | Some t =>
                  match sf_syntax t with
                  | Some s => s
                  | None => SYNTAX_FIELD_RAW
                  end
              | None => SYNTAX_FIELD_RAW
              end in
            '(sf, _, _) <-
              parse_syntax fuel (Some field_data) syntax parser_config
                           (Some sf) (Some param_appearance_counters) ;;
            Ok (Some sf, f)
  end.

(** How a generator ends: it is exhausted, an exception leaves it, or it has
    not ended within the fuel. *)
Inductive generator_end : Type :=
| StopIteration
| Raises (e : exn)
| Running.

(** [except exceptions.ParseError as e] of [stream]: the error is annotated
    with the field number and the offset where the field starts. *)
Definition annotate (e : exn) (field_no field_start_offset : Z) : exn :=
  if is_ParseError (cls e)
  then mk_exn (cls e) (message e) (Some field_no) (Some field_start_offset)
  else e.

(** The loop of [stream]: the structured fields it yields, in order, and how
    it ends. *)
Fixpoint stream_loop (n : nat) (fuel : nat) (f : file) (parser_config : ParserConfig)
         (field_no : Z) : list (dict value) * generator_end :=
  match n with
  | O => ([], Running)
  | S n' =>
      let field_start_offset := tell f in
      match read_structured_field fuel f parser_config with
      | Ok (Some sf, f') =>
          let '(sfs, e) := stream_loop n' fuel f' parser_config (field_no + 1) in
          (sf :: sfs, e)
      | Ok (None, _) => ([], StopIteration)
      | Raise e => ([], Raises (annotate e field_no field_start_offset))
      | OutOfFuel => ([], Running)
      end
  end.

(** Interface to the parser. Parse AFP file f. *)
Definition stream (fuel : nat) (f : file)
           (allow_unknown_fields allow_unknown_triplets
            allow_unknown_functions strict : bool)
  : list (dict value) * generator_end :=
  let field_no := 1 in
  let parser_config :=
    mk_ParserConfig allow_unknown_fields allow_unknown_triplets
                    allow_unknown_functions strict in
  stream_loop fuel fuel f parser_config field_no.

(** Interface to the parser: the list of structured fields in the AFP
    file. *)
Definition load (fuel : nat) (f : file)
           (allow_unknown_fields allow_unknown_triplets
            allow_unknown_functions strict : bool)
  : outcome (list (dict value)) :=
  match stream fuel f allow_unknown_fields allow_unknown_triplets
               allow_unknown_functions strict with
  | (field_list, StopIteration) => Ok field_list
  | (_, Raises e) => Raise e
  | (_, Running) => OutOfFuel
  end.

End parser.

(* ================================================================= *)
(** * Inputs and specification-level definitions used by the properties *)

Import parser.

(** A file positioned at 0 that holds the given bytes. *)
Definition file_of (b : list byte) : file := mk_file 0 b.

(** The bytes of the "minimal BDT" scenario. *)
Definition minimal_bdt : file :=
  file_of [x5a; x00; x11; xd3; xa8; xa8; x00; x00; x00;
           xc4; xd6; xc3; x4e; xc1; xd4; xc5; x00; x00].

(** What the parser yields for it in lenient mode. *)
Definition minimal_bdt_record : dict value :=
  [("SFTypeID", VInt 0xD3A8A8); ("FlagByte", VInt 0x00);
   ("Reserved", VList [VInt 0x00; VInt 0x00]); ("SFLength", VInt 17);
   ("DocName", VStr (String "D" (String "O" (String "C" (String "+" (String "A"
                    (String "M" (String "E" (String "000" EmptyString)))))))));
   ("_exceptions",
    VList [VTuple [VInt 0x04; VStr "0x04 Required parameter missing: Reserved"]])]%string.

(** Whether a name contains the character that [_add_param] puts before a
    counter. *)
Fixpoint has_dash (s : string) : bool :=
  match s with
  | EmptyString => false
  | String c s' => if Ascii.eqb c "-" then true else has_dash s'
  end.

(** A record as [stream] must yield it for a structured field whose bytes on
    the wire, after the carriage control character, are [wire]: the
    SFTypeID is a 3-byte value with high byte 0xD3 and SFLength is the
    length of [wire]. *)
Definition framed_record (sf : dict value) (wire : list byte) : Prop :=
  exists t : Z,
    lookup sf fields.PNAME_SF_TYPE_ID = Some (VInt t)
    /\ 0 <= t < 2 ^ 24
    /\ Z.shiftr t 16 = 0xD3
    /\ lookup sf fields.PNAME_SF_LENGTH = Some (VInt (len wire)).

(** The bytes of a sequence of structured fields, each after its carriage
    control character. *)
Definition frames (wires : list (list byte)) : list byte :=
  List.concat (map (cons x5a) wires).

(** A structured field with nothing after its introducer, whose class byte is
    0xC3. *)
Definition wrong_class : file :=
  file_of [x5a; x00; x08; xc3; xa8; xa8; x00; x00; x00].

(** The state of the loop of [parse_ptoca] between two iterations: no
    control sequence yet and [chained] false, or [chained] is what
    [chained_function] says of the TYPE of the last control sequence. *)
Definition chain_state (chained : bool) (ctrl_sequences : list value) : Prop :=
  (ctrl_sequences = [] /\ chained = false)
  \/ exists init cs t,
      ctrl_sequences = init ++ [VDict cs]
      /\ lookup cs functions.PNAME_CS_TYPE = Some (VInt t)
      /\ chained = functions.chained_function t.

(** A list of control sequences that does not end with a chained one. *)
Definition ends_unchained (ctrl_sequences : list value) : Prop :=
  ctrl_sequences = []
  \/ exists init cs t,
      ctrl_sequences = init ++ [VDict cs]
      /\ lookup cs functions.PNAME_CS_TYPE = Some (VInt t)
      /\ Z.even t = true.

(** The body of the minimal BDT once the introducer is removed: eight bytes
    of name and a single byte where two reserved bytes are due. *)
Definition short_bdt_body : list byte :=
  [xc4; xd6; xc3; x4e; xc1; xd4; xc5; x00; x00].

(** Adding parameters one after the other with [_add_param], as the loop of
    [parse_syntax] does for the values it keeps. *)
Fixpoint add_params (l : list (string * value)) (result : dict value)
         (param_appearance_counters : dict Z) : outcome (dict value * dict Z) :=
  match l with
  | [] => Ok (result, param_appearance_counters)
  | (name, v) :: l' =>
      '(_, r, c) <- _add_param name v result param_appearance_counters ;;
      add_params l' r c
  end.

(** The key under which the [k]-th occurrence of a name is stored, in the
    spec's words: the bare name the first time, then the name with [-k]
    appended. *)
Definition occurrence_name (name : string) (k : nat) : string :=
  if (k =? 1)%nat then name else (name ++ "-" ++ str_int (Z.of_nat k))%string.

(** The keys for a sequence of names, given the names that came before. *)
Fixpoint unique_names_from (seen names : list string) : list string :=
  match names with
  | [] => []
  | n :: names' =>
      occurrence_name n (S (count_occ string_dec seen n))
      :: unique_names_from (seen ++ [n]) names'
  end.

Definition unique_names (names : list string) : list string :=
  unique_names_from [] names.

(** The parameter names of a syntax, those of its repeating groups
    included. *)
Fixpoint elem_names (e : fields.elem) : list string :=
  match e with
  | fields.SParam p => [fields.name p]
  | fields.SGroup g => flat_map elem_names g
  end.

Definition syntax_names (s : fields.syntax) : list string := flat_map elem_names s.

Definition option_syntax_names (s : option fields.syntax) : list string :=
  match s with
  | Some s => syntax_names s
  | None => []
  end.

(** Every name that the tables of the package can pass to [_add_param]. *)
Definition catalogue_names : list string :=
  PNAME_REPEATING_GROUP
  :: syntax_names fields.SYNTAX_SFI
  ++ syntax_names fields.SYNTAX_FIELD_RAW
  ++ syntax_names triplets.SYNTAX_TRIPLET_RAW
  ++ syntax_names functions.SYNTAX_FUNCTION_RAW
  ++ flat_map (fun x => option_syntax_names (fields.sf_syntax (snd x))) fields.SF_TYPES
  ++ flat_map (fun x => option_syntax_names (triplets.t_syntax (snd x)))
              triplets.TRIPLET_TYPES
  ++ flat_map (fun x => option_syntax_names (functions.fn_syntax (snd x)))
              functions.FUNCTIONS.

(** A TLE structured field whose only triplet has Tlength 0 (and the known
    Tid 0x02), followed by one more byte. *)
Definition zero_length_triplet : file :=
  file_of [x5a; x00; x0b; xd3; xa0; x90; x00; x00; x00; x00; x02; x00].

(** A PTX structured field: the escape sequence, a chained TRN of LENGTH 2,
    then a chained TRN of LENGTH 0. *)
Definition zero_length_function : file :=
  file_of [x5a; x00; x0e; xd3; xee; x9b; x00; x00; x00; x2b; xd3; x02; xdb; x00; xdb].

(** A TLE structured field whose first triplet has Tlength 1. *)
Definition one_length_triplet : file :=
  file_of [x5a; x00; x0f; xd3; xa0; x90; x00; x00; x00;
           x01; x02; x24; x04; x24; x05; x06].

(** A NOP structured field with the extension flag set, ExtLength 1 and one
    byte of data. *)
Definition ext_length_one : file :=
  file_of [x5a; x00; x0a; xd3; xee; xee; x80; x00; x00; x01; xc1].

(** What the parser yields for [one_length_triplet] in lenient mode. *)
Definition one_length_triplet_record : dict value :=
  [("SFTypeID", VInt 0xD3A090); ("FlagByte", VInt 0);
   ("Reserved", VList [VInt 0; VInt 0]); ("SFLength", VInt 15);
   ("Triplets",
    VList
      [VDict [("_exceptions",
               VList [VTuple [VInt 4; VStr "0x04 Required parameter missing: FQNType"];
                      VTuple [VInt 4; VStr "0x04 Required parameter missing: FQNFmt"];
                      VTuple [VInt 4; VStr "0x04 Required parameter missing: FQName"]]);
              ("Tlength", VInt 1); ("Tid", VInt 0x02)];
       VDict [("ResType", VInt 4); ("ResLID", VInt 0x24);
              ("Tlength", VInt 2); ("Tid", VInt 0x24)];
       VDict [("ResType", VInt 5); ("ResLID", VInt 6);
              ("Tlength", VInt 4); ("Tid", VInt 0x24)]])]%string.

(** What the parser yields for [ext_length_one], in both modes. *)
Definition ext_length_one_record : dict value :=
  [("SFTypeID", VInt 0xD3EEEE); ("FlagByte", VInt 0x80);
   ("Reserved", VList [VInt 0; VInt 0]);
   ("ExtLength", VInt 1); ("ExtData", VList [VInt 0xC1]);
   ("SFLength", VInt 10); ("UndfData", VList [VInt 0xC1])]%string.

(** No value of the dictionary is an empty list. *)
Definition no_empty_list (r : dict value) : Prop :=
  Forall (fun kv => is_empty_list (snd kv) = false) r.

(** The descriptor of ExtData in the syntax of the introducer. *)
Definition ext_data_param : fields.ParameterType :=
  fields.mk_ParameterType 7 0 fields.PTYPE_BYTE fields.PNAME_EXT_DATA true
                          (Some fields._set_extension_length).

(** A NOP structured field with the extension flag set, ExtLength 3, two
    bytes of extension data and one byte of data. *)
Definition ext_length_three : file :=
  file_of [x5a; x00; x0c; xd3; xee; xee; x80; x00; x00; x03; xaa; xbb; xc1].

(** What the parser yields for [ext_length_three]. *)
Definition ext_length_three_record : dict value :=
  [("SFTypeID", VInt 0xD3EEEE); ("FlagByte", VInt 0x80);
   ("Reserved", VList [VInt 0; VInt 0]);
   ("ExtLength", VInt 3); ("ExtData", VList [VInt 0xAA; VInt 0xBB]);
   ("SFLength", VInt 12); ("UndfData", VList [VInt 0xC1])]%string.

(** [a] is [b], unless it has run out of fuel: more fuel can only turn
    [OutOfFuel] into an outcome, never change an outcome. *)
Definition fuel_le {A : Type} (a b : outcome A) : Prop :=
  a = OutOfFuel \/ a = b.

(** The same, for the recursive calls and for the end of a walk. *)
Definition parse_fn_le (f g : parse_fn) : Prop :=
  forall d s c r p, fuel_le (f d s c r p) (g d s c r p).

Definition walk_le (a b : walk_end) : Prop :=
  a = Unfinished \/ a = b.

(** ** The introducer of a structured field *)




(** The bytes of a buffer as the integers a BYTE parameter holds. *)
Definition byte_values (b : list byte) : list value :=
  map (fun x => VInt (byte_val x)) b.

(** ** Classes of errors *)

(** The two errors that stand for a parameter that is missing or cut
    short. *)
Definition parameter_error (c : exc_class) : bool :=
  match c with
  | RequiredParameterMissingError | IncompleteParameterError => true
  | _ => false
  end.

(** Those two, and the end-of-stream error they replace. *)
Definition soft_error (c : exc_class) : bool :=
  match c with
  | RequiredParameterMissingError | IncompleteParameterError
  | EOSWhileReadingError => true
  | _ => false
  end.

(** A NOP structured field with the extension flag set and ExtLength 1,
    with nothing after ExtLength. *)
Definition ext_length_one_bare : file :=
  file_of [x5a; x00; x09; xd3; xee; xee; x80; x00; x00; x01].

(** ** Inputs for the generator *)



(* ================================================================= *)
(** * Properties of the parser *)

Local Open Scope py_scope.

(** Boolean comparisons on Z, as propositions. *)
Ltac zbool :=
  repeat match goal with
  | H : (_ >? _) = _ |- _ => rewrite Z.gtb_ltb in H
  | H : (_ >=? _) = _ |- _ => rewrite Z.geb_leb in H
  | H : (_ <? _) = true |- _ => apply Z.ltb_lt in H
  | H : (_ <? _) = false |- _ => apply Z.ltb_ge in H
  | H : (_ <=? _) = true |- _ => apply Z.leb_le in H
  | H : (_ <=? _) = false |- _ => apply Z.leb_gt in H
  | H : (_ =? _) = true |- _ => apply Z.eqb_eq in H
  | H : (_ =? _) = false |- _ => apply Z.eqb_neq in H
  end.

Section DictFacts.
Context {V : Type}.
Implicit Types (d : dict V) (k : string) (v : V).

Lemma lookup_setitem_same d k v : lookup (setitem d k v) k = Some v.
Proof.
  induction d as [|[k' v'] d IH]; simpl.
  - now rewrite String.eqb_refl.
  - destruct (String.eqb k' k) eqn:E; simpl; rewrite E; auto.
Qed.

Lemma lookup_setitem_other d k k' v :
  k' <> k -> lookup (setitem d k' v) k = lookup d k.
Proof.
  intros Hne. induction d as [|[k0 v0] d IH]; simpl.
  - destruct (String.eqb k' k) eqn:E; auto. apply String.eqb_eq in E. contradiction.
  - destruct (String.eqb k0 k') eqn:E; simpl.
    + apply String.eqb_eq in E. subst k0.
      destruct (String.eqb k' k) eqn:E'; auto.
      apply String.eqb_eq in E'. contradiction.
    + destruct (String.eqb k0 k); auto.
Qed.

Lemma contains_lookup d k : contains d k = false <-> lookup d k = None.
Proof.
  induction d as [|[k' v'] d IH]; simpl; [tauto|].
  destruct (String.eqb k' k); [split; discriminate | exact IH].
Qed.

Lemma contains_true_lookup d k : contains d k = true <-> exists v, lookup d k = Some v.
Proof.
  induction d as [|[k' v'] d IH]; simpl.
  - split; [discriminate | intros [v H]; discriminate].
  - destruct (String.eqb k' k); [split; eauto | exact IH].
Qed.

Lemma contains_keys d k : contains d k = true <-> In k (keys d).
Proof.
  induction d as [|[k' v'] d IH]; simpl.
  - split; [discriminate | tauto].
  - destruct (String.eqb k' k) eqn:E.
    + apply String.eqb_eq in E. split; auto.
    + apply String.eqb_neq in E. rewrite IH. split; [auto | intros [H|H]; [contradiction | auto]].
Qed.

Lemma setitem_absent d k v : contains d k = false -> setitem d k v = d ++ [(k, v)].
Proof.
  induction d as [|[k' v'] d IH]; simpl; auto.
  destruct (String.eqb k' k); [discriminate|]. intros H. now rewrite IH.
Qed.

End DictFacts.

(** ** Byte readers *)

Lemma len_nonneg {A} (l : list A) : 0 <= len l.
Proof. unfold len. lia. Qed.

Lemma index_nth_error {A} (l : list A) (i : nat) (a : A) :
  nth_error l i = Some a -> index l (Z.of_nat i) = Ok a.
Proof.
  intros H. unfold index.
  destruct (Z.of_nat i <? 0) eqn:E; [zbool; lia|]. rewrite E.
  now rewrite Nat2Z.id, H.
Qed.

Lemma skipn_nth_error {A} (l : list A) (o : nat) (a : A) :
  nth_error l o = Some a -> skipn o l = a :: skipn (S o) l.
Proof.
  revert o. induction l as [|x l IH]; intros [|o] H; simpl in *; try discriminate.
  - now inversion H.
  - now apply IH.
Qed.

Lemma comprehension_index {A} (l : list A) : forall (n o : nat),
  (o + n <= List.length l)%nat ->
  comprehension (index l) (map (fun i => Z.of_nat o + Z.of_nat i) (seq 0 n))
  = Ok (firstn n (skipn o l)).
Proof.
  intros n. induction n as [|n IH]; intros o H; simpl; auto.
  destruct (nth_error l o) as [a|] eqn:E.
  2:{ apply nth_error_None in E. lia. }
  replace (Z.of_nat o + 0) with (Z.of_nat o) by lia.
  rewrite (index_nth_error _ _ _ E). simpl.
  rewrite <- seq_shift, map_map.
  rewrite (map_ext _ (fun i => Z.of_nat (S o) + Z.of_nat i)) by (intros; lia).
  rewrite IH by lia. simpl.
  now rewrite (skipn_nth_error _ _ _ E).
Qed.

Lemma parse_bytes_in_range (data : list byte) (n offset : Z) :
  0 < n -> 0 <= offset -> offset + n <= len data ->
  parse_bytes data n offset
  = Ok (Some (firstn (Z.to_nat n) (skipn (Z.to_nat offset) data))).
Proof.
  intros Hn Ho Hl. unfold parse_bytes.
  destruct (n =? 0) eqn:E; [zbool; lia|].
  destruct (offset >=? len data) eqn:E1; [zbool; lia|].
  destruct (offset + n >? len data) eqn:E2; [zbool; lia|].
  unfold range. replace (offset + n - offset) with n by lia.
  rewrite (map_ext _ (fun i => Z.of_nat (Z.to_nat offset) + Z.of_nat i)) by (intros; lia).
  rewrite comprehension_index; [reflexivity|]. unfold len in Hl. lia.
Qed.

Lemma ubin_fold_acc (b : list byte) : forall acc,
  fold_left (fun u x => Z.shiftl u 8 + byte_val x) b acc
  = acc * 2 ^ (8 * len b) + ubin_of_bytes b.
Proof.
  unfold ubin_of_bytes, len.
  induction b as [|x b IH]; intros acc; cbn [fold_left].
  - simpl. lia.
  - rewrite (IH (Z.shiftl acc 8 + byte_val x)), (IH (Z.shiftl 0 8 + byte_val x)).
    rewrite Z.shiftl_0_l, !Z.shiftl_mul_pow2 by lia.
    replace (8 * Z.of_nat (List.length (x :: b)))
      with (8 + 8 * Z.of_nat (List.length b)) by (simpl List.length; lia).
    rewrite Z.pow_add_r by lia. ring.
Qed.

Lemma ubin_of_bytes_app (a b : list byte) :
  ubin_of_bytes (a ++ b) = ubin_of_bytes a * 2 ^ (8 * len b) + ubin_of_bytes b.
Proof.
  unfold ubin_of_bytes at 1. rewrite fold_left_app.
  now rewrite ubin_fold_acc.
Qed.

Lemma byte_val_range (b : byte) : 0 <= byte_val b < 256.
Proof. unfold byte_val. pose proof (Byte.to_N_bounded b). lia. Qed.

Lemma ubin_of_bytes_cons (x : byte) (b : list byte) :
  ubin_of_bytes (x :: b) = byte_val x * 2 ^ (8 * len b) + ubin_of_bytes b.
Proof.
  change (x :: b) with ([x] ++ b). rewrite ubin_of_bytes_app.
  unfold ubin_of_bytes at 1. cbn [fold_left]. now rewrite Z.shiftl_0_l.
Qed.

Lemma ubin_of_bytes_range (b : list byte) :
  0 <= ubin_of_bytes b < 2 ^ (8 * len b).
Proof.
  induction b as [|x b IH].
  - cbn. lia.
  - rewrite ubin_of_bytes_cons.
    replace (8 * len (x :: b)) with (8 + 8 * len b)
      by (unfold len; simpl List.length; lia).
    pose proof (len_nonneg b).
    rewrite Z.pow_add_r by lia. change (2 ^ 8) with 256.
    pose proof (byte_val_range x). nia.
Qed.

Lemma land_pow2_zero (u k : Z) :
  0 <= k -> 0 <= u < 2 ^ (k + 1) ->
  (Z.land u (Z.shiftl 1 k) =? 0) = (u <? 2 ^ k).
Proof.
  intros Hk Hu. rewrite Z.shiftl_1_l.
  assert (Hp : 0 < 2 ^ k) by (apply Z.pow_pos_nonneg; lia).
  rewrite Z.pow_add_r in Hu by lia. change (2 ^ 1) with 2 in Hu.
  destruct (u <? 2 ^ k) eqn:E.
  - apply Z.eqb_eq. apply Z.ltb_lt in E.
    apply Z.bits_inj'. intros n Hn. rewrite Z.land_spec, Z.bits_0.
    destruct (Z.eq_dec n k) as [->|Hne].
    + destruct (Z.eq_dec u 0) as [->|Hu0]; [now rewrite Z.bits_0|].
      rewrite (Z.bits_above_log2 u k); [reflexivity | lia |].
      apply Z.log2_lt_pow2; lia.
    + rewrite Z.pow2_bits_false by lia. apply andb_false_r.
  - apply Z.eqb_neq. apply Z.ltb_ge in E. intros H.
    apply (f_equal (fun x => Z.testbit x k)) in H.
    rewrite Z.land_spec, Z.bits_0, Z.pow2_bits_true, andb_true_r in H by lia.
    assert (Z.testbit u k = true); [|congruence].
    apply Z.testbit_true; auto.
    assert (Hq : u / 2 ^ k = 1); [|now rewrite Hq].
    assert (1 <= u / 2 ^ k) by (apply Z.div_le_lower_bound; lia).
    assert (u / 2 ^ k < 2) by (apply Z.div_lt_upper_bound; lia). lia.
Qed.

Lemma slice_in_range {A} (l : list A) (a b : Z) :
  0 <= a -> a <= b -> b <= len l ->
  slice l a b = firstn (Z.to_nat (b - a)) (skipn (Z.to_nat a) l).
Proof.
  intros Ha Hab Hb. unfold slice, clamp.
  destruct (a <? 0) eqn:E1; [zbool; lia|].
  destruct (b <? 0) eqn:E2; [zbool; lia|].
  now rewrite !Z.min_l by lia.
Qed.

Lemma length_firstn_skipn {A} (l : list A) (n o : nat) :
  (o + n <= List.length l)%nat -> List.length (firstn n (skipn o l)) = n.
Proof. intros H. rewrite length_firstn, length_skipn. lia. Qed.

Lemma parse_ubin_in_range (data : list byte) (n offset : Z) :
  0 < n -> 0 <= offset -> offset + n <= len data ->
  parse_ubin data n offset = Ok (Some (ubin_of_bytes (slice data offset (offset + n)))).
Proof.
  intros Hn Ho Hl. unfold parse_ubin.
  rewrite parse_bytes_in_range by assumption. simpl.
  rewrite slice_in_range by lia. now replace (offset + n - offset) with n by lia.
Qed.

Lemma len_slice_in_range {A} (l : list A) (a b : Z) :
  0 <= a -> a <= b -> b <= len l -> len (slice l a b) = b - a.
Proof.
  intros Ha Hab Hb. rewrite slice_in_range by assumption.
  unfold len in *. rewrite length_firstn_skipn; lia.
Qed.

(** C7. [parse_sbin] decodes a big-endian two's-complement integer at the
    exact width requested: whenever [n] bytes are available at [offset], the
    result lies in [-2^(8n-1), 2^(8n-1)) and is congruent modulo [2^(8n)] to
    the unsigned reading of the same bytes; on three bytes, FF FF FE is -2,
    80 00 00 is -8388608 and 7F FF FF is 8388607. *)
Theorem parse_sbin_twos_complement :
  (forall (data : list byte) (n offset : Z),
      0 < n -> 0 <= offset -> offset + n <= len data ->
      exists v,
        parse_sbin data n offset = Ok (Some v)
        /\ - 2 ^ (8 * n - 1) <= v < 2 ^ (8 * n - 1)
        /\ v mod 2 ^ (8 * n) = ubin_of_bytes (slice data offset (offset + n)))
  /\ parse_sbin [xff; xff; xfe] 3 0 = Ok (Some (-2))
  /\ parse_sbin [x80; x00; x00] 3 0 = Ok (Some (-8388608))
  /\ parse_sbin [x7f; xff; xff] 3 0 = Ok (Some 8388607).
Proof.
  split; [|repeat split; reflexivity].
  intros data n offset Hn Ho Hl. unfold parse_sbin.
  rewrite parse_ubin_in_range by assumption. cbn [bind].
  set (u := ubin_of_bytes (slice data offset (offset + n))).
  assert (Hu : 0 <= u < 2 ^ (8 * n)).
  { pose proof (ubin_of_bytes_range (slice data offset (offset + n))) as H.
    rewrite len_slice_in_range in H by lia.
    now replace (offset + n - offset) with n in H by lia. }
  assert (Hp : 2 ^ (8 * n) = 2 * 2 ^ (8 * n - 1)).
  { replace (8 * n) with (1 + (8 * n - 1)) at 1 by lia.
    rewrite Z.pow_add_r by lia. reflexivity. }
  assert (Hpos : 0 < 2 ^ (8 * n - 1)) by (apply Z.pow_pos_nonneg; lia).
  destruct (n * 8 - 1 <? 0) eqn:E; [zbool; lia|].
  replace (n * 8) with (8 * n) by lia.
  rewrite land_pow2_zero; [|lia|replace (8 * n - 1 + 1) with (8 * n) by lia; exact Hu].
  rewrite Z.shiftl_1_l.
  destruct (u <? 2 ^ (8 * n - 1)) eqn:E'; zbool; cbn [negb].
  - exists u. repeat split; try lia. apply Z.mod_small. lia.
  - exists (u - 2 ^ (8 * n)). repeat split; try lia.
    replace (u - 2 ^ (8 * n)) with (u + (-1) * 2 ^ (8 * n)) by lia.
    rewrite Z.mod_add by lia. apply Z.mod_small. lia.
Qed.

Lemma parse_sbin_twos_complement_witness :
  exists v,
    parse_sbin [x00; xff; xff; xfe] 3 1 = Ok (Some v)
    /\ - 2 ^ (8 * 3 - 1) <= v < 2 ^ (8 * 3 - 1)
    /\ v mod 2 ^ (8 * 3) = ubin_of_bytes (slice [x00; xff; xff; xfe] 1 (1 + 3)).
Proof.
  apply (proj1 parse_sbin_twos_complement [x00; xff; xff; xfe] 3 1);
    [lia | lia | vm_compute; discriminate].
Defined.

(** ** The minimal BDT scenario *)

Lemma minimal_bdt_lenient (k : nat) :
  stream (S (S k)) minimal_bdt false false false false
  = ([minimal_bdt_record], StopIteration).
Proof. reflexivity. Qed.

Lemma minimal_bdt_strict (k : nat) :
  stream (S (S k)) minimal_bdt false false false true
  = ([], Raises (mk_exn RequiredParameterMissingError
                        "Required parameter missing: Reserved" (Some 1) (Some 0))).
Proof. reflexivity. Qed.

(** C8, as the code has it. The 18 bytes 5A 00 11 D3 A8 A8 00 00 00 C4 D6
    C3 4E C1 D4 C5 00 00 hold a 9-byte body after the introducer, one byte
    short of the 10 that DocName and Reserved need, and byte 4E is '+' in
    cp500. With the default [strict=False] the parser yields exactly one
    record: SFTypeID=0xD3A8A8, FlagByte=0x00, Reserved=[0,0] (from the
    introducer), SFLength=17, DocName = "DOC+AME" followed by a NUL, no
    Triplets entry, and one [_exceptions] pair (0x04, required parameter
    missing: Reserved). With [strict=True] that error is raised for field 1
    at offset 0 and nothing is yielded. *)
Theorem minimal_bdt_one_byte_short :
  forall k : nat,
    stream (S (S k)) minimal_bdt false false false false
    = ([minimal_bdt_record], StopIteration)
    /\ lookup minimal_bdt_record "Triplets" = None
    /\ stream (S (S k)) minimal_bdt false false false true
       = ([], Raises (mk_exn RequiredParameterMissingError
                             "Required parameter missing: Reserved" (Some 1) (Some 0))).
Proof.
  intros k. repeat split.
Qed.

(** C8 as stated fails: for no fuel and in neither mode does the parser
    yield a single record with DocName "DOCNAME" and no error. *)
Lemma minimal_bdt_counterexample :
  ~ (exists (fuel : nat) (strict : bool) (sf : dict value),
        stream fuel minimal_bdt false false false strict = ([sf], StopIteration)
        /\ lookup sf "DocName" = Some (VStr "DOCNAME")
        /\ lookup sf "_exceptions" = None).
Proof.
  intros (fuel & strict & sf & Hs & Hd & He).
  destruct fuel as [|[|k]]; [discriminate Hs | |].
  - destruct strict; vm_compute in Hs; discriminate Hs.
  - destruct strict.
    + rewrite minimal_bdt_strict in Hs. discriminate Hs.
    + rewrite minimal_bdt_lenient in Hs.
      injection Hs as <-. discriminate Hd.
Qed.

(** ** Invariants of the walk over a syntax *)

(** Inversion of a bind that returned. *)
Lemma bind_Ok {A B} (m : outcome A) (k : A -> outcome B) (b : B) :
  bind m k = Ok b -> exists a, m = Ok a /\ k a = Ok b.
Proof. destruct m; simpl; intros H; try discriminate; eauto. Qed.

Ltac inv_bind H :=
  let a := fresh "a" in
  let Ha := fresh "Ha" in
  apply bind_Ok in H; destruct H as (a & Ha & H).

Tactic Notation "inv_bind_as" hyp(H) simple_intropattern(a) ident(Ha) :=
  apply bind_Ok in H; destruct H as (a & Ha & H).

Lemma add_exception_nonempty (e : exn) (r r' : dict value) :
  _add_exception e r = Ok r' ->
  exists l, r' = setitem (if negb (contains r PNAME_EXCEPTIONS)
                          then setitem r PNAME_EXCEPTIONS (VList []) else r)
                         PNAME_EXCEPTIONS (VList l) /\ l <> [].
Proof.
  unfold _add_exception. intros H. inv_bind H.
  destruct a; try discriminate. injection H as <-.
  eexists; split; [reflexivity|]. destruct l; discriminate.
Qed.

Section WalkInvariant.

(** A property of the result dictionary that adding a parameter (with a
    value that is not an empty list) and adding an exception both keep. *)
Variable Inv : dict value -> Prop.
Hypothesis Inv_add_param :
  forall name v r c u r' c',
    Inv r -> is_empty_list v = false ->
    _add_param name v r c = Ok (u, r', c') -> Inv r'.
Hypothesis Inv_add_exception :
  forall e r r', Inv r -> _add_exception e r = Ok r' -> Inv r'.

Variable rec : parse_fn.
Variable fuel : nat.
Variable parser_config : ParserConfig.

Lemma store_param_inv param v st st' :
  Inv (result st) -> store_param parser_config param v st = Ok st' -> Inv (result st').
Proof.
  intros HI H. unfold store_param in H. inv_bind H. injection H as <-. simpl.
  destruct v as [v|].
  - destruct (is_empty_list v) eqn:E; simpl in Ha.
    + destruct (fields.mandatory param); [|now injection Ha as <-].
      destruct (strict parser_config); [discriminate|].
      inv_bind Ha. injection Ha as <-. simpl. eauto.
    + inv_bind Ha. destruct a0 as [[u r] c]. injection Ha as <-. simpl. eauto.
  - destruct (fields.mandatory param); [|now injection Ha as <-].
    destruct (strict parser_config); [discriminate|].
    inv_bind Ha. injection Ha as <-. simpl. eauto.
Qed.

Lemma decode_param_result param st v st' :
  decode_param rec fuel parser_config param st = Ok (v, st') -> result st' = result st.
Proof.
  unfold decode_param. intros H.
  destruct (fields.datatype param); inv_bind H;
    try (injection H as <- <-; reflexivity).
  - destruct a as [b|]; [|now injection H as <- <-].
    destruct (fields.length param =? 1); [inv_bind H|]; now injection H as <- <-.
  - inv_bind H. injection H as <- <-.
    destruct (fields.preproc param) as [f|]; [|now injection Ha0 as <-].
    inv_bind Ha0.
    assert (E : result a1 = result st).
    { destruct (fields.preproc_fn_eqb f fields._next_group_length);
        [|now injection Ha1 as <-].
      destruct a as [[| |]|]; try discriminate; now injection Ha1 as <-. }
    rewrite <- E.
    destruct (fields.preproc_fn_eqb f fields._this_group_length);
      [|now injection Ha0 as <-].
    destruct a as [value|]; [|discriminate].
    destruct (value =? 0); [discriminate|].
    destruct (value >? len (data a1)); [discriminate|]. now injection Ha0 as <-.
Qed.

Lemma parse_param_inv param st st' :
  Inv (result st) -> parse_param rec fuel parser_config param st = Ok st' ->
  Inv (result st').
Proof.
  intros HI H. unfold parse_param in H. inv_bind H. destruct a as [v st1].
  apply decode_param_result in Ha. eapply store_param_inv; [|exact H].
  now rewrite Ha.
Qed.

Lemma parse_group_inv g st st' :
  Inv (result st) -> parse_group rec fuel parser_config g st = Ok st' ->
  Inv (result st').
Proof.
  intros HI H. unfold parse_group in H. inv_bind H. inv_bind H.
  destruct a0 as [value off]. inv_bind H. destruct a0 as [r c].
  injection H as <-. simpl.
  destruct (len value >? 0) eqn:E; [|now injection Ha1 as <- <-].
  inv_bind Ha1. destruct a0 as [[u r0] c0]. injection Ha1 as <- <-.
  eapply Inv_add_param; [exact HI| |exact Ha2].
  destruct value; [discriminate E | reflexivity].
Qed.

Lemma walk_inv syntax : forall st,
  Inv (result st) ->
  match walk rec fuel parser_config syntax st with
  | Finished st' => Inv (result st')
  | Raised _ _ st' => Inv (result st')
  | Unfinished => True
  end.
Proof.
  induction syntax as [|[param|g] syntax IH]; intros st HI; simpl; auto.
  - destruct (run_preproc (result st) param) as [[param'|]| |]; auto.
    + destruct (parse_param rec fuel parser_config param' st) as [st'| |] eqn:E; auto.
      apply IH. eapply parse_param_inv; eauto.
    + now apply IH.
  - destruct (parse_group rec fuel parser_config g st) as [st'| |] eqn:E; auto.
    apply IH. eapply parse_group_inv; eauto.
Qed.

Lemma after_walk_inv w r' c' n :
  match w with
  | Finished st' => Inv (result st')
  | Raised _ _ st' => Inv (result st')
  | Unfinished => True
  end ->
  after_walk parser_config w = Ok (r', c', n) -> Inv r'.
Proof.
  intros HW H. destruct w as [st'|e p st'|]; simpl in H;
    [now injection H as <- <- <- | | discriminate].
  destruct (exc_class_eqb (cls e) EOSWhileReadingError); [|discriminate].
  destruct p as [p|g]; [|discriminate].
  destruct (strict parser_config); [discriminate|].
  inv_bind H. injection H as <- <- <-. eauto.
Qed.

Lemma parse_syntax_body_inv data syntax r c r' c' n :
  Inv (match r with Some r => r | None => [] end) ->
  parse_syntax_body rec fuel parser_config data syntax r c = Ok (r', c', n) ->
  Inv r'.
Proof.
  intros HI H. unfold parse_syntax_body in H.
  eapply after_walk_inv; [|exact H]. now apply walk_inv.
Qed.

End WalkInvariant.

Lemma parse_syntax_inv (Inv : dict value -> Prop) :
  (forall name v r c u r' c',
      Inv r -> is_empty_list v = false ->
      _add_param name v r c = Ok (u, r', c') -> Inv r') ->
  (forall e r r', Inv r -> _add_exception e r = Ok r' -> Inv r') ->
  forall fuel data syntax cfg r c r' c' n,
    Inv (match r with Some r => r | None => [] end) ->
    parse_syntax fuel data syntax cfg r c = Ok (r', c', n) ->
    Inv r'.
Proof.
  intros H1 H2 [|fuel] data syntax cfg r c r' c' n HI H; [discriminate|].
  simpl in H. eapply parse_syntax_body_inv; eauto.
Qed.

(** ** More fuel never changes an outcome *)

Lemma fuel_le_refl {A} (a : outcome A) : fuel_le a a.
Proof. now right. Qed.

Lemma fuel_le_bind {A B} (m m' : outcome A) (k k' : A -> outcome B) :
  fuel_le m m' -> (forall a, fuel_le (k a) (k' a)) ->
  fuel_le (bind m k) (bind m' k').
Proof.
  intros [->| ->] Hk; [now left|]. destruct m' as [a| |]; simpl; auto using fuel_le_refl.
Qed.

Lemma fuel_le_try_except {A} c (m m' : outcome A) h :
  fuel_le m m' -> fuel_le (try_except c m h) (try_except c m' h).
Proof. intros [->| ->]; [now left | apply fuel_le_refl]. Qed.

Section Monotone.

Variables rec rec' : parse_fn.
Hypothesis Hrec : parse_fn_le rec rec'.

Lemma parse_triplets_loop_mono n : forall n', (n <= n')%nat ->
  forall data cfg p i acc,
    fuel_le (parse_triplets_loop rec n data cfg p i acc)
            (parse_triplets_loop rec' n' data cfg p i acc).
Proof.
  induction n as [|n IH]; intros n' Hn data cfg p i acc.
  - destruct n'; simpl; destruct (p <? len data); auto using fuel_le_refl; now left.
  - destruct n' as [|n']; [lia|]. cbn [parse_triplets_loop].
    destruct (p <? len data); [|apply fuel_le_refl].
    apply fuel_le_bind; [apply fuel_le_refl|intros t_length].
    apply fuel_le_bind; [apply fuel_le_refl|intros [t_id|]]; [|apply fuel_le_refl].
    apply fuel_le_bind; [apply fuel_le_refl|intros triplet_type].
    apply fuel_le_bind; [apply fuel_le_refl|intros tl].
    apply fuel_le_bind; [apply fuel_le_refl|intros contents].
    apply fuel_le_bind; [apply Hrec|intros [[triplet c] m]].
    apply IH. lia.
Qed.

Lemma parse_ptoca_loop_mono n : forall n', (n <= n')%nat ->
  forall data cfg chained p i acc,
    fuel_le (parse_ptoca_loop rec n data cfg chained p i acc)
            (parse_ptoca_loop rec' n' data cfg chained p i acc).
Proof.
  induction n as [|n IH]; intros n' Hn data cfg chained p i acc.
  - destruct n'; simpl; destruct (p <? len data); auto using fuel_le_refl; now left.
  - destruct n' as [|n']; [lia|]. cbn [parse_ptoca_loop].
    destruct (p <? len data); [|apply fuel_le_refl].
    apply fuel_le_bind; [apply fuel_le_refl|intros p1].
    apply fuel_le_bind; [apply fuel_le_refl|intros [length|]]; [|apply fuel_le_refl].
    apply fuel_le_bind; [apply fuel_le_refl|intros [function|]]; [|apply fuel_le_refl].
    apply fuel_le_bind; [apply fuel_le_refl|intros fn_info].
    apply fuel_le_bind; [apply fuel_le_refl|intros function_data].
    apply fuel_le_bind; [apply Hrec|intros [[cs c] m]].
    apply IH. lia.
Qed.

Variables fuel fuel' : nat.
Hypothesis Hfuel : (fuel <= fuel')%nat.
Variable cfg : ParserConfig.

Lemma repeating_group_loop_mono n : forall n', (n <= n')%nat ->
  forall data ngl param off value,
    fuel_le (repeating_group_loop rec cfg n data ngl param off value)
            (repeating_group_loop rec' cfg n' data ngl param off value).
Proof.
  induction n as [|n IH]; intros n' Hn data ngl param off value.
  - destruct n'; simpl; destruct (off <? len data); auto using fuel_le_refl; now left.
  - destruct n' as [|n']; [lia|]. cbn [repeating_group_loop].
    destruct (off <? len data); [|apply fuel_le_refl].
    apply fuel_le_bind; [apply fuel_le_refl|intros gd].
    apply fuel_le_bind; [apply Hrec|intros [[nested c] m]].
    apply IH. lia.
Qed.

Lemma decode_param_mono param st :
  fuel_le (decode_param rec fuel cfg param st) (decode_param rec' fuel' cfg param st).
Proof.
  unfold decode_param. destruct (fields.datatype param); try apply fuel_le_refl.
  - apply fuel_le_bind; [|intros; apply fuel_le_refl].
    now apply parse_triplets_loop_mono.
  - apply fuel_le_bind; [|intros; apply fuel_le_refl].
    now apply parse_ptoca_loop_mono.
Qed.

Lemma parse_param_mono param st :
  fuel_le (parse_param rec fuel cfg param st) (parse_param rec' fuel' cfg param st).
Proof.
  unfold parse_param. apply fuel_le_bind; [apply decode_param_mono|].
  intros [v st']. apply fuel_le_refl.
Qed.

Lemma parse_group_mono g st :
  fuel_le (parse_group rec fuel cfg g st) (parse_group rec' fuel' cfg g st).
Proof.
  unfold parse_group. apply fuel_le_bind; [apply fuel_le_refl|intros ngl].
  apply fuel_le_bind; [now apply repeating_group_loop_mono|].
  intros [value off]. apply fuel_le_refl.
Qed.

Lemma walk_mono syntax : forall st,
  walk_le (walk rec fuel cfg syntax st) (walk rec' fuel' cfg syntax st).
Proof.
  induction syntax as [|[param|g] syntax IH]; intros st; cbn [walk].
  - now right.
  - destruct (run_preproc (result st) param) as [[param'|]| |]; try (now right).
    + destruct (parse_param_mono param' st) as [->| ->]; [now left|].
      destruct (parse_param rec' fuel' cfg param' st); [apply IH | now right | now right].
    + apply IH.
  - destruct (parse_group_mono g st) as [->| ->]; [now left|].
    destruct (parse_group rec' fuel' cfg g st); [apply IH | now right | now right].
Qed.

Lemma parse_syntax_body_mono data syntax r c :
  fuel_le (parse_syntax_body rec fuel cfg data syntax r c)
          (parse_syntax_body rec' fuel' cfg data syntax r c).
Proof.
  unfold parse_syntax_body.
  match goal with
  | |- fuel_le (after_walk _ (walk _ _ _ _ ?st)) _ =>
      destruct (walk_mono syntax st) as [->| ->]; [now left | apply fuel_le_refl]
  end.
Qed.

End Monotone.

Lemma parse_syntax_mono n : forall n', (n <= n')%nat ->
  parse_fn_le (parse_syntax n) (parse_syntax n').
Proof.
  induction n as [|n IH]; intros n' Hn d s c r p; [now left|].
  destruct n' as [|n']; [lia|]. cbn [parse_syntax].
  apply parse_syntax_body_mono; [apply IH|]; lia.
Qed.

(** An outcome of [parse_syntax] does not depend on the fuel, once there is
    enough of it. *)
Lemma parse_syntax_enough_fuel n n' data syntax cfg r c :
  (n <= n')%nat ->
  parse_syntax n data syntax cfg r c <> OutOfFuel ->
  parse_syntax n' data syntax cfg r c = parse_syntax n data syntax cfg r c.
Proof.
  intros Hn H. destruct (parse_syntax_mono n n' Hn data syntax cfg r c) as [E|E];
    [contradiction | now symmetry].
Qed.

Lemma read_structured_field_mono n n' f cfg :
  (n <= n')%nat ->
  fuel_le (read_structured_field n f cfg) (read_structured_field n' f cfg).
Proof.
  intros Hn. unfold read_structured_field.
  apply fuel_le_bind; [apply fuel_le_refl|intros [[b|] f1]]; [|apply fuel_le_refl].
  destruct (negb (b =? CARRIAGE_CONTROL_CHAR)); [apply fuel_le_refl|].
  apply fuel_le_bind; [apply fuel_le_refl|intros [L f2]].
  apply fuel_le_bind; [apply fuel_le_refl|intros [data f3]].
  apply fuel_le_bind; [now apply parse_syntax_mono|intros [[sf c] m]].
  apply fuel_le_bind; [apply fuel_le_refl|intros tv].
  apply fuel_le_bind; [apply fuel_le_refl|intros t].
  destruct (negb _); [apply fuel_le_refl|].
  apply fuel_le_bind; [apply fuel_le_refl|intros flag].
  apply fuel_le_bind; [apply fuel_le_refl|intros [|]]; [apply fuel_le_refl|].
  apply fuel_le_bind; [apply fuel_le_refl|intros sf_type].
  apply fuel_le_bind; [apply fuel_le_refl|intros seg].
  apply fuel_le_bind; [apply fuel_le_refl|intros ext].
  apply fuel_le_bind; [apply fuel_le_refl|intros dbg].
  apply fuel_le_bind; [apply fuel_le_refl|intros start].
  apply fuel_le_bind; [now apply parse_syntax_mono|intros [[sf1 c1] m1]].
  apply fuel_le_refl.
Qed.

(** An outcome of [read_structured_field] does not depend on the fuel, once
    there is enough of it. *)
Lemma read_structured_field_enough_fuel n n' f cfg :
  (n <= n')%nat ->
  read_structured_field n f cfg <> OutOfFuel ->
  read_structured_field n' f cfg = read_structured_field n f cfg.
Proof.
  intros Hn H. destruct (read_structured_field_mono n n' f cfg Hn) as [E|E];
    [contradiction | now symmetry].
Qed.

Lemma stream_loop_enough_fuel n : forall n' fuel fuel' f cfg field_no sfs e,
  (n <= n')%nat -> (fuel <= fuel')%nat ->
  stream_loop n fuel f cfg field_no = (sfs, e) -> e <> Running ->
  stream_loop n' fuel' f cfg field_no = (sfs, e).
Proof.
  induction n as [|n IH]; intros n' fuel fuel' f cfg field_no sfs e Hn Hf H He.
  - injection H as <- <-. contradiction.
  - destruct n' as [|n']; [lia|]. cbn [stream_loop] in *.
    destruct (read_structured_field fuel f cfg) as [[[sf|] f1]|err|] eqn:E.
    + rewrite (read_structured_field_enough_fuel fuel fuel' f cfg Hf), E
        by (rewrite E; discriminate).
      destruct (stream_loop n fuel f1 cfg (field_no + 1)) as [sfs1 e1] eqn:E1.
      injection H as <- <-.
      now rewrite (IH n' fuel fuel' f1 cfg (field_no + 1) sfs1 e1) by (auto; lia).
    + rewrite (read_structured_field_enough_fuel fuel fuel' f cfg Hf), E
        by (rewrite E; discriminate).
      exact H.
    + rewrite (read_structured_field_enough_fuel fuel fuel' f cfg Hf), E
        by (rewrite E; discriminate).
      exact H.
    + injection H as <- <-. contradiction.
Qed.

(** Once [stream] has ended within the fuel, more fuel gives the same
    records and the same end. *)
Lemma stream_enough_fuel n n' f auf aut afn st sfs e :
  (n <= n')%nat ->
  stream n f auf aut afn st = (sfs, e) -> e <> Running ->
  stream n' f auf aut afn st = (sfs, e).
Proof. intros Hn. unfold stream. now apply stream_loop_enough_fuel. Qed.

(** ** Keys that the interpreter leaves alone *)

Lemma has_dash_app (a b : string) :
  has_dash (a ++ String "-" b)%string = true.
Proof. induction a as [|c a IH]; simpl; auto. destruct (Ascii.eqb c "-"); auto. Qed.

Lemma add_param_keeps (k : string) (x : value) name v r c u r' c' :
  has_dash k = false -> lookup r k = Some x ->
  _add_param name v r c = Ok (u, r', c') -> lookup r' k = Some x.
Proof.
  intros Hk Hl H. unfold _add_param in H.
  destruct (contains r name) eqn:E; simpl in H.
  - inv_bind H. injection H as <- <- <-.
    rewrite lookup_setitem_other; auto.
    intros <-. now rewrite has_dash_app in Hk.
  - injection H as <- <- <-.
    rewrite lookup_setitem_other; auto.
    intros <-. apply contains_lookup in E. congruence.
Qed.

Lemma add_exception_keeps (k : string) e r r' :
  k <> PNAME_EXCEPTIONS -> _add_exception e r = Ok r' -> lookup r' k = lookup r k.
Proof.
  intros Hk H. apply add_exception_nonempty in H as (l & -> & _).
  rewrite lookup_setitem_other by congruence.
  destruct (negb (contains r PNAME_EXCEPTIONS)); auto.
  now rewrite lookup_setitem_other by congruence.
Qed.

(** A key without a dash, other than [_exceptions], keeps its value through
    a call of [parse_syntax] that is given the dictionary. *)
Lemma parse_syntax_keeps (k : string) (x : value) fuel data syntax cfg r c r' c' n :
  has_dash k = false -> k <> PNAME_EXCEPTIONS ->
  lookup r k = Some x ->
  parse_syntax fuel data syntax cfg (Some r) c = Ok (r', c', n) ->
  lookup r' k = Some x.
Proof.
  intros Hd Hk Hl H.
  apply (parse_syntax_inv (fun r => lookup r k = Some x)) in H; auto.
  - intros. eapply add_param_keeps; eauto.
  - intros e r0 r0' H0 H1. now rewrite (add_exception_keeps k e r0 r0' Hk H1).
Qed.

(** ** Reading from the file *)

Lemma try_except_Ok {A} c (m : outcome A) h a :
  try_except c m h = Ok a -> m = Ok a \/ exists e, m = Raise e /\ h e = Ok a.
Proof.
  unfold try_except. destruct m as [x|e|].
  - auto.
  - destruct (exc_class_eqb (cls e) c); [eauto | discriminate].
  - discriminate.
Qed.

Lemma read_bytes_Some f n s f' :
  read_bytes f n = Ok (Some s, f') ->
  remaining f = s ++ remaining f' /\ len s = n /\ 0 < n
  /\ position f' = position f + n.
Proof.
  unfold read_bytes, read. intros H.
  destruct (n <? -1) eqn:E; [discriminate|]. simpl in H.
  match type of H with context [len ?x =? 0] => set (s0 := x) in * end.
  destruct (len s0 =? 0) eqn:E0; [discriminate|].
  destruct (len s0 =? n) eqn:E1; [|discriminate]. simpl in H.
  injection H as <- <-. simpl. zbool. pose proof (len_nonneg s0).
  repeat split; try lia.
  subst s0. destruct (n =? -1) eqn:E2; zbool; [lia|].
  unfold len in E1.
  replace (List.length (firstn (Z.to_nat n) (remaining f))) with (Z.to_nat n) by lia.
  symmetry. apply firstn_skipn.
Qed.

Lemma read_bytes_app f n s rest :
  remaining f = s ++ rest -> len s = n -> 0 < n ->
  read_bytes f n = Ok (Some s, mk_file (position f + n) rest).
Proof.
  intros Hr Hl Hn. unfold read_bytes, read.
  destruct (n <? -1) eqn:E; [zbool; lia|].
  destruct (n =? -1) eqn:E1; [zbool; lia|]. cbn [bind].
  assert (Hf : firstn (Z.to_nat n) (remaining f) = s).
  { rewrite Hr. unfold len in Hl. replace (Z.to_nat n) with (List.length s) by lia.
    rewrite firstn_app, Nat.sub_diag, firstn_all. simpl. apply app_nil_r. }
  rewrite Hf, Hl.
  destruct (n =? 0) eqn:E2; [zbool; lia|]. rewrite Z.eqb_refl. simpl.
  rewrite Hr, skipn_app, skipn_all, Nat.sub_diag. reflexivity.
Qed.

Lemma read_byte_Some f b f' :
  read_byte f = Ok (Some b, f') ->
  exists x, remaining f = x :: remaining f' /\ b = byte_val x
            /\ position f' = position f + 1.
Proof.
  unfold read_byte. intros H. inv_bind H. destruct a as [[s|] f1]; [|discriminate].
  apply read_bytes_Some in Ha as (Hr & Hl & _ & Hp).
  destruct s as [|x [|y s]];
    try (exfalso; unfold len in Hl; simpl List.length in Hl; lia).
  simpl in H. injection H as <- <-. exists x. auto.
Qed.

Lemma read_ubin_Some f n u f' :
  read_ubin f n = Ok (Some u, f') ->
  exists s, remaining f = s ++ remaining f' /\ len s = n /\ u = ubin_of_bytes s
            /\ position f' = position f + n.
Proof.
  unfold read_ubin. intros H. inv_bind H. destruct a as [[s|] f1]; [|discriminate].
  injection H as <- <-. apply read_bytes_Some in Ha as (Hr & Hl & _ & Hp). eauto.
Qed.

(** ** The introducer *)

Lemma walk_cons_param rec fuel cfg p p' rest st st' :
  run_preproc (result st) p = Ok (Some p') ->
  parse_param rec fuel cfg p' st = Ok st' ->
  walk rec fuel cfg (fields.SParam p :: rest) st = walk rec fuel cfg rest st'.
Proof. intros H1 H2. cbn [walk]. now rewrite H1, H2. Qed.

Lemma walk_sfi_type_id rec fuel cfg (b1 b2 b3 : byte) (rest : list byte) :
  let data := b1 :: b2 :: b3 :: rest in
  walk rec fuel cfg fields.SYNTAX_SFI (mk_locals data [] [] (Some 0) 0)
  = walk rec fuel cfg (tl fields.SYNTAX_SFI)
         (mk_locals data [(fields.PNAME_SF_TYPE_ID, VInt (ubin_of_bytes [b1; b2; b3]))]
                    [(fields.PNAME_SF_TYPE_ID, 1)] (Some 0) 3).
Proof.
  intros data. unfold fields.SYNTAX_SFI at 1.
  eapply walk_cons_param; [reflexivity|].
  unfold parse_param, decode_param. cbn [fields.datatype fields.length fields.offset].
  unfold parse_code. rewrite parse_ubin_in_range;
    [|lia|lia|unfold len, data; simpl List.length; lia].
  rewrite slice_in_range; [|lia|lia|unfold len, data; simpl List.length; lia].
  reflexivity.
Qed.

Lemma sfi_type_id fuel data cfg sf c n v :
  parse_syntax fuel (Some data) fields.SYNTAX_SFI cfg None (Some []) = Ok (sf, c, n) ->
  lookup sf fields.PNAME_SF_TYPE_ID = Some v ->
  exists t, v = VInt t /\ 0 <= t < 2 ^ 24.
Proof.
  intros H Hv. destruct fuel as [|fuel]; [discriminate|].
  destruct cfg as [auf aut afn st].
  destruct data as [|b1 [|b2 [|b3 rest]]].
  - exfalso. destruct st; vm_compute in H; discriminate H.
  - exfalso. destruct st; cbn in H; [discriminate H|].
    injection H as <- _ _. discriminate Hv.
  - exfalso. destruct st; cbn in H; [discriminate H|].
    injection H as <- _ _. discriminate Hv.
  - cbn [parse_syntax] in H. unfold parse_syntax_body in H.
    rewrite walk_sfi_type_id in H.
    set (u := ubin_of_bytes [b1; b2; b3]) in *.
    assert (Hu : 0 <= u < 2 ^ 24) by apply (ubin_of_bytes_range [b1; b2; b3]).
    pose (Inv := fun r : dict value => lookup r fields.PNAME_SF_TYPE_ID = Some (VInt u)).
    assert (Hadd : forall name v r c u0 r' c',
               Inv r -> is_empty_list v = false ->
               _add_param name v r c = Ok (u0, r', c') -> Inv r').
    { intros. eapply add_param_keeps; eauto. }
    assert (Hexc : forall e r r', Inv r -> _add_exception e r = Ok r' -> Inv r').
    { intros e r0 r0' H0 H1. unfold Inv.
      rewrite (add_exception_keeps _ e r0 r0'); auto. discriminate. }
    assert (HI : Inv sf).
    { eapply (after_walk_inv Inv Hexc); [|exact H].
      apply (walk_inv Inv Hadd Hexc). reflexivity. }
    exists u. split; [unfold Inv in HI; congruence | exact Hu].
Qed.

Lemma getitem_Ok {V} (d : dict V) k v : getitem d k = Ok v -> lookup d k = Some v.
Proof. unfold getitem. destruct (lookup d k); intros H; now inversion H. Qed.

Lemma as_int_Ok v z : as_int v = Ok z -> v = VInt z.
Proof. destruct v; simpl; intros H; now inversion H. Qed.

Lemma class_byte_of_type_id (t : Z) :
  0 <= t < 2 ^ 24 -> Z.shiftr (Z.land t 0xFF0000) 16 = Z.shiftr t 16.
Proof.
  intros Ht. rewrite Z.shiftr_land.
  change (Z.shiftr 0xFF0000 16) with (Z.ones 8).
  rewrite Z.land_ones by lia. rewrite Z.shiftr_div_pow2 by lia.
  apply Z.mod_small. split; [apply Z.div_pos; lia|].
  apply Z.div_lt_upper_bound; lia.
Qed.

(** What a call of [read_structured_field] that returns a record has read,
    and what the record holds. *)
Lemma read_structured_field_framed fuel f cfg sf f' :
  read_structured_field fuel f cfg = Ok (Some sf, f') ->
  exists wire,
    remaining f = x5a :: wire ++ remaining f'
    /\ framed_record sf wire
    /\ position f' = position f + 1 + len wire.
Proof.
  unfold read_structured_field. intros H.
  inv_bind H. destruct a as [[b|] f1]; [|discriminate].
  destruct (negb (b =? CARRIAGE_CONTROL_CHAR)) eqn:Eb; [discriminate|].
  apply read_byte_Some in Ha as (x & Hx & -> & Hp1).
  assert (x = x5a) as ->.
  { apply negb_false_iff in Eb. zbool. destruct x; try discriminate Eb. reflexivity. }
  inv_bind H. destruct a as [L f2].
  apply try_except_Ok in Ha as [Ha|(e & _ & Ha)]; [|discriminate].
  inv_bind Ha. destruct a as [[l|] f2']; [|discriminate]. injection Ha as -> ->.
  apply read_ubin_Some in Ha0 as (s & Hs & Hls & -> & Hp2).
  inv_bind H. destruct a as [data f3].
  apply try_except_Ok in Ha as [Ha|(e & _ & Ha)]; [|discriminate].
  inv_bind Ha. destruct a as [[d|] f3']; [|discriminate]. injection Ha as -> ->.
  apply read_bytes_Some in Ha0 as (Hd & Hld & Hpos & Hp3).
  inv_bind H. destruct a as [[sf0 c0] n0].
  inv_bind H. apply getitem_Ok in Ha0.
  rewrite lookup_setitem_other in Ha0 by discriminate.
  destruct (sfi_type_id _ _ _ _ _ _ _ Ha Ha0) as (t & -> & Ht).
  inv_bind H. apply as_int_Ok in Ha1. injection Ha1 as <-.
  destruct (negb (Z.shiftr (Z.land t 16711680) 16 =? MODCA_CLASS_CODE)) eqn:Ec;
    [discriminate|].
  apply negb_false_iff in Ec. zbool. rewrite class_byte_of_type_id in Ec by exact Ht.
  inv_bind_as H flag Hflag. inv_bind_as H pad Hpad. destruct pad; [discriminate|].
  inv_bind_as H sf_type Htype. inv_bind_as H seg Hseg. inv_bind_as H ext Hext.
  inv_bind_as H dbg Hdbg. inv_bind_as H start Hstart.
  inv_bind_as H [[sf1 c1] n1] Hbody. injection H as <- <-.
  exists (s ++ data). repeat split.
  - rewrite Hx, Hs, Hd. now rewrite app_assoc.
  - exists t. repeat split; try lia; try exact Ec.
    + eapply parse_syntax_keeps; [reflexivity | discriminate | | exact Hbody].
      now rewrite lookup_setitem_other by discriminate.
    + eapply parse_syntax_keeps; [reflexivity | discriminate | | exact Hbody].
      rewrite lookup_setitem_same. do 2 f_equal.
      unfold len in *. rewrite length_app. lia.
  - unfold len in *. rewrite length_app. lia.
Qed.

Lemma read_structured_field_eof fuel f cfg f' :
  read_structured_field fuel f cfg = Ok (None, f') -> remaining f = [].
Proof.
  unfold read_structured_field. intros H.
  inv_bind_as H [[b|] f1] Hb.
  - destruct (negb (b =? CARRIAGE_CONTROL_CHAR)); [discriminate|].
    inv_bind_as H [L f2] HL. inv_bind_as H [data f3] Hdata.
    inv_bind_as H [[sf0 c0] n0] Hsfi. inv_bind_as H tv Htv. inv_bind_as H t Ht.
    destruct (negb _); [discriminate|].
    inv_bind_as H flag Hflag. inv_bind_as H pad Hpad. destruct pad; [discriminate|].
    inv_bind_as H sf_type Htype. inv_bind_as H seg Hseg. inv_bind_as H ext Hext.
    inv_bind_as H dbg Hdbg. inv_bind_as H start Hstart.
    inv_bind_as H [[sf1 c1] n1] Hbody. discriminate.
  - unfold read_byte in Hb. inv_bind_as Hb [[s|] f2] Hs.
    + inv_bind Hb. discriminate.
    + unfold read_bytes, read in Hs. simpl in Hs.
      destruct (remaining f) as [|x r]; [reflexivity|]. discriminate.
Qed.

Lemma stream_loop_framed n : forall fuel f cfg field_no sfs e,
  stream_loop n fuel f cfg field_no = (sfs, e) ->
  exists wires rest,
    remaining f = frames wires ++ rest
    /\ Forall2 framed_record sfs wires
    /\ (e = StopIteration -> rest = []).
Proof.
  induction n as [|n IH]; intros fuel f cfg field_no sfs e H; simpl in H.
  - injection H as <- <-. exists [], (remaining f). repeat split; [constructor | discriminate].
  - destruct (read_structured_field fuel f cfg) as [[[sf|] f']|err|] eqn:E.
    + destruct (stream_loop n fuel f' cfg (field_no + 1)) as [sfs' e'] eqn:E'.
      injection H as <- <-.
      apply IH in E' as (wires & rest & Hr & Hf & He).
      apply read_structured_field_framed in E as (wire & Hw & Hsf & _).
      exists (wire :: wires), rest. repeat split; [|now constructor|exact He].
      rewrite Hw, Hr. unfold frames. simpl. now rewrite <- app_assoc.
    + injection H as <- <-. apply read_structured_field_eof in E.
      exists [], []. repeat split; [exact E | constructor].
    + injection H as <- <-. exists [], (remaining f).
      repeat split; [constructor | discriminate].
    + injection H as <- <-. exists [], (remaining f).
      repeat split; [constructor | discriminate].
Qed.

Lemma read_byte_cons f x rest :
  remaining f = x :: rest ->
  read_byte f = Ok (Some (byte_val x), mk_file (position f + 1) rest).
Proof.
  intros H. unfold read_byte.
  now rewrite (read_bytes_app f 1 [x] rest H eq_refl eq_refl).
Qed.

Lemma read_ubin_app f n s rest :
  remaining f = s ++ rest -> len s = n -> 0 < n ->
  read_ubin f n = Ok (Some (ubin_of_bytes s), mk_file (position f + n) rest).
Proof.
  intros H Hl Hn. unfold read_ubin. now rewrite (read_bytes_app f n s rest H Hl Hn).
Qed.

(** The check of the class code: once the introducer is parsed, a type
    identifier whose class byte is not 0xD3 ends the call with the
    unrecognized-identifier-code error. *)
Lemma read_structured_field_class fuel f cfg l1 l2 data rest sf0 c0 n0 t :
  remaining f = x5a :: l1 :: l2 :: data ++ rest ->
  len data = ubin_of_bytes [l1; l2] - 2 -> 0 < len data ->
  parse_syntax fuel (Some data) fields.SYNTAX_SFI cfg None (Some []) = Ok (sf0, c0, n0) ->
  lookup sf0 fields.PNAME_SF_TYPE_ID = Some (VInt t) ->
  Z.shiftr (Z.land t 0xFF0000) 16 <> MODCA_CLASS_CODE ->
  read_structured_field fuel f cfg
  = Raise (exceptions.new UnrecognizedIdentifierCodeError
             ("Unrecognized class code 0x" ++ format_X 6 t
              ++ " - MO:DCA uses class code 0xD3")%string).
Proof.
  intros Hr Hl Hn Hsfi Ht Hc. unfold read_structured_field.
  rewrite (read_byte_cons f x5a _ Hr). cbn [bind].
  change (negb (byte_val x5a =? CARRIAGE_CONTROL_CHAR)) with false. cbv iota.
  rewrite (read_ubin_app (mk_file (position f + 1) (l1 :: l2 :: data ++ rest)) 2
                         [l1; l2] (data ++ rest) eq_refl eq_refl eq_refl).
  cbn [bind try_except].
  cbn [position].
  rewrite (read_bytes_app (mk_file (position f + 1 + 2) (data ++ rest)) _
                          data rest eq_refl Hl ltac:(lia)). cbn [bind try_except].
  rewrite Hsfi. cbn [bind].
  unfold getitem. rewrite lookup_setitem_other by discriminate. rewrite Ht.
  cbn [bind as_int].
  destruct (Z.shiftr (Z.land t 16711680) 16 =? MODCA_CLASS_CODE) eqn:E;
    [zbool; contradiction|]. reflexivity.
Qed.

(** C1. Every record that [stream] yields, and so every record in the list
    [load] returns, belongs to a structured field on the wire (the
    carriage control character 0x5A, then the bytes [wire]): its SFTypeID
    is a 3-byte value whose high byte is 0xD3 and its SFLength is the length
    of [wire]; the records follow the input in order, and [load] returns
    only when the whole input is such a sequence. When the introducer of a
    framed field has been parsed and the class byte of its SFTypeID is not
    0xD3, [read_structured_field] returns no record: it raises
    UnrecognizedIdentifierCodeError, whose MO:DCA code is 0x40. *)
Theorem emitted_fields_framed_and_classed :
  (forall fuel f auf aut afn strict sfs e,
      stream fuel f auf aut afn strict = (sfs, e) ->
      exists wires rest,
        remaining f = frames wires ++ rest /\ Forall2 framed_record sfs wires)
  /\ (forall fuel f auf aut afn strict sfs,
         load fuel f auf aut afn strict = Ok sfs ->
         exists wires,
           remaining f = frames wires /\ Forall2 framed_record sfs wires)
  /\ (forall fuel f cfg l1 l2 data rest sf0 c0 n0 t,
         remaining f = x5a :: l1 :: l2 :: data ++ rest ->
         len data = ubin_of_bytes [l1; l2] - 2 -> 0 < len data ->
         parse_syntax fuel (Some data) fields.SYNTAX_SFI cfg None (Some [])
         = Ok (sf0, c0, n0) ->
         lookup sf0 fields.PNAME_SF_TYPE_ID = Some (VInt t) ->
         Z.shiftr (Z.land t 0xFF0000) 16 <> 0xD3 ->
         exists e,
           read_structured_field fuel f cfg = Raise e
           /\ cls e = UnrecognizedIdentifierCodeError
           /\ modca_code (cls e) = 0x40).
Proof.
  split; [|split].
  - intros fuel f auf aut afn strict sfs e H. unfold stream in H.
    apply stream_loop_framed in H as (wires & rest & Hr & Hf & _). eauto.
  - intros fuel f auf aut afn strict sfs H. unfold load in H.
    destruct (stream fuel f auf aut afn strict) as [sfs' e] eqn:E.
    destruct e; try discriminate. injection H as ->.
    unfold stream in E.
    apply stream_loop_framed in E as (wires & rest & Hr & Hf & He).
    exists wires. rewrite (He eq_refl), app_nil_r in Hr. auto.
  - intros fuel f cfg l1 l2 data rest sf0 c0 n0 t Hr Hl Hn Hsfi Ht Hc.
    eexists. split; [|split].
    + eapply read_structured_field_class; eauto.
    + reflexivity.
    + reflexivity.
Qed.

Lemma emitted_fields_framed_and_classed_witness :
  (exists wires rest,
      remaining minimal_bdt = frames wires ++ rest
      /\ Forall2 framed_record [minimal_bdt_record] wires)
  /\ (exists e,
         read_structured_field 1 wrong_class default_config = Raise e
         /\ cls e = UnrecognizedIdentifierCodeError
         /\ modca_code (cls e) = 0x40).
Proof.
  split.
  - apply (proj1 emitted_fields_framed_and_classed
                 2%nat minimal_bdt false false false false
                 [minimal_bdt_record] StopIteration).
    reflexivity.
  - apply (proj2 (proj2 emitted_fields_framed_and_classed)
                 1%nat wrong_class default_config x00 x08
                 [xc3; xa8; xa8; x00; x00; x00] []
                 [("SFTypeID"%string, VInt 0xC3A8A8); ("FlagByte"%string, VInt 0);
                  ("Reserved"%string, VList [VInt 0; VInt 0])]
                 [("SFTypeID"%string, 1); ("FlagByte"%string, 1); ("Reserved"%string, 1)]
                 6 0xC3A8A8).
    + reflexivity.
    + reflexivity.
    + reflexivity.
    + reflexivity.
    + reflexivity.
    + vm_compute. discriminate.
Defined.

(** ** The PTOCA driver *)

Lemma chained_function_odd (t : Z) : functions.chained_function t = Z.odd t.
Proof.
  unfold functions.chained_function, functions.unchained_function.
  rewrite Zmod_odd. now destruct (Z.odd t).
Qed.

Section Ptoca.

Variable rec : parse_fn.

Lemma parse_ptoca_loop_exit fuel data cfg chained p i seqs :
  len data <= p ->
  parse_ptoca_loop rec fuel data cfg chained p i seqs
  = if chained
    then Raise (exceptions.new InvalidControlSequenceError "Final function is chained")
    else Ok seqs.
Proof.
  intros H. destruct (p <? len data) eqn:E; [zbool; lia|].
  destruct fuel; simpl; rewrite E; reflexivity.
Qed.

Lemma parse_ptoca_loop_ends fuel : forall data cfg chained p i acc seqs,
  chain_state chained acc ->
  parse_ptoca_loop rec fuel data cfg chained p i acc = Ok seqs ->
  ends_unchained seqs.
Proof.
  induction fuel as [|fuel IH]; intros data cfg chained p i acc seqs Hst H.
  - simpl in H. destruct (p <? len data); [discriminate|].
    destruct chained; [discriminate|]. injection H as <-.
    destruct Hst as [[-> _]|(init & cs & t & -> & Hl & Hc)]; [now left|].
    right. exists init, cs, t. repeat split; auto.
    rewrite chained_function_odd in Hc. rewrite <- Z.negb_odd, <- Hc. reflexivity.
  - cbn [parse_ptoca_loop] in H. destruct (p <? len data) eqn:E.
    + inv_bind_as H p1 Hp1. inv_bind_as H length Hlen.
      destruct length as [length|]; [|discriminate].
      inv_bind_as H function Hfn. destruct function as [function|]; [|discriminate].
      inv_bind_as H fn_info Hinfo. inv_bind_as H function_data Hdata.
      inv_bind_as H [[cs c] n] Hcs.
      eapply IH; [|exact H].
      right. eexists acc, _, function. repeat split.
      apply lookup_setitem_same.
    + destruct chained; [discriminate|]. injection H as <-.
      destruct Hst as [[-> _]|(init & cs & t & -> & Hl & Hc)]; [now left|].
      right. exists init, cs, t. repeat split; auto.
      rewrite chained_function_odd in Hc. rewrite <- Z.negb_odd, <- Hc. reflexivity.
Qed.

End Ptoca.

(** C5. When the loop of [parse_ptoca] has consumed the input ([p] is at or
    past the end) after a control sequence whose TYPE [t] is odd, so that
    [chained] is true, the call raises InvalidControlSequenceError with the
    message "Final function is chained"; hence a list that [parse_ptoca]
    returns is empty or ends with a control sequence whose TYPE is even. *)
Theorem parse_ptoca_never_ends_chained :
  (forall rec fuel data cfg p i seqs t,
      len data <= p -> Z.odd t = true ->
      parse_ptoca_loop rec fuel data cfg (functions.chained_function t) p i seqs
      = Raise (exceptions.new InvalidControlSequenceError "Final function is chained"))
  /\ (forall rec fuel data cfg offset seqs,
         parse_ptoca rec fuel data cfg offset = Ok seqs ->
         seqs = []
         \/ exists init cs t,
             seqs = init ++ [VDict cs]
             /\ lookup cs "TYPE" = Some (VInt t)
             /\ Z.even t = true).
Proof.
  split.
  - intros rec fuel data cfg p i seqs t Hp Ht.
    rewrite parse_ptoca_loop_exit by assumption.
    now rewrite chained_function_odd, Ht.
  - intros rec fuel data cfg offset seqs H.
    apply (parse_ptoca_loop_ends rec fuel data cfg false offset 0 [] seqs); [|exact H].
    left. split; reflexivity.
Qed.

Lemma parse_ptoca_never_ends_chained_witness :
  parse_ptoca_loop (parse_syntax 1) 1 [x2b; xd3; x03; xdb; xc4] default_config
                   (functions.chained_function 0xDB) 5 1 []
  = Raise (exceptions.new InvalidControlSequenceError "Final function is chained")
  /\ ([VDict [("TRNDATA"%string, VStr "D"); ("LENGTH"%string, VInt 3);
              ("TYPE"%string, VInt 0xDA)]] = []
      \/ exists init cs t,
          [VDict [("TRNDATA"%string, VStr "D"); ("LENGTH"%string, VInt 3);
                  ("TYPE"%string, VInt 0xDA)]] = init ++ [VDict cs]
          /\ lookup cs "TYPE" = Some (VInt t)
          /\ Z.even t = true).
Proof.
  split.
  - apply (proj1 parse_ptoca_never_ends_chained); [vm_compute; discriminate | reflexivity].
  - apply (proj2 parse_ptoca_never_ends_chained (parse_syntax 1) 1%nat
                 [x2b; xd3; x03; xda; xc4] default_config 0).
    reflexivity.
Defined.

(** ** The loop over the syntax *)

Section Walk.

Variable rec : parse_fn.
Variable fuel : nat.
Variable cfg : ParserConfig.

Lemma walk_app (pre rest : fields.syntax) : forall st,
  walk rec fuel cfg (pre ++ rest) st
  = match walk rec fuel cfg pre st with
    | Finished st' => walk rec fuel cfg rest st'
    | w => w
    end.
Proof.
  induction pre as [|[p|g] pre IH]; intros st; cbn [walk app]; auto.
  - destruct (run_preproc (result st) p) as [[p'|]| |]; auto.
    destruct (parse_param rec fuel cfg p' st); auto.
  - destruct (parse_group rec fuel cfg g st); auto.
Qed.

Lemma walk_cons_raise p p' rest st e :
  run_preproc (result st) p = Ok (Some p') ->
  parse_param rec fuel cfg p' st = Raise e ->
  walk rec fuel cfg (fields.SParam p :: rest) st = Raised e (fields.SParam p') st.
Proof. intros H1 H2. cbn [walk]. now rewrite H1, H2. Qed.


End Walk.

(** What [_add_exception] does to the result: the pair is appended to the
    list under [_exceptions], which is created if need be, and no other key
    changes. *)
Lemma add_exception_appends e r r' :
  _add_exception e r = Ok r' ->
  exists old,
    (lookup r PNAME_EXCEPTIONS = Some (VList old)
     \/ (lookup r PNAME_EXCEPTIONS = None /\ old = []))
    /\ lookup r' PNAME_EXCEPTIONS
       = Some (VList (old ++ [VTuple [VInt (modca_code (cls e)); VStr (str e)]]))
    /\ forall k, k <> PNAME_EXCEPTIONS -> lookup r' k = lookup r k.
Proof.
  intros H. pose proof (fun k Hk => add_exception_keeps k e r r' Hk H) as Hkeep.
  unfold _add_exception in H. inv_bind_as H l Hl. apply getitem_Ok in Hl.
  destruct l as [| |old| |]; try discriminate. injection H as <-.
  exists old. split; [|split; [apply lookup_setitem_same | exact Hkeep]].
  destruct (contains r PNAME_EXCEPTIONS) eqn:E; simpl in Hl.
  - now left.
  - right. rewrite lookup_setitem_same in Hl. injection Hl as <-.
    split; [now apply contains_lookup | reflexivity].
Qed.

(** Reading past the end of the buffer: some, but not all, of the bytes asked
    for are there. *)
Lemma parse_bytes_past_end (data : list byte) (n offset : Z) :
  n <> 0 -> offset < len data -> len data < offset + n ->
  exists msg, parse_bytes data n offset = Raise (exceptions.new EOSWhileReadingError msg).
Proof.
  intros Hn Ho Hl. unfold parse_bytes.
  destruct (n =? 0) eqn:E; [zbool; contradiction|].
  destruct (offset >=? len data) eqn:E1; [zbool; lia|].
  destruct (offset + n >? len data) eqn:E2; [|zbool; lia].
  eexists. reflexivity.
Qed.

(** C2. [parse_bytes], on which every decoder rests, raises
    EOSWhileReadingError when the bytes asked for start inside the buffer
    and end past it. While [parse_syntax] walks a syntax, let the
    parameters before [param] be done ([walk] on them finished, in state
    [st]) and let the decoding of [param] raise that error. The error is
    replaced by RequiredParameterMissingError (code 0x04) when the
    parameter is mandatory and by IncompleteParameterError (code 0x02) when
    it is optional. In strict mode the call raises it; otherwise the call
    returns at once, whatever elements follow in the syntax, with the pair
    (code, text) appended to the [_exceptions] list of the result as it
    stood. *)
Theorem end_of_stream_is_converted :
  (forall data n offset,
      n <> 0 -> offset < len data -> len data < offset + n ->
      exists msg,
        parse_bytes data n offset = Raise (exceptions.new EOSWhileReadingError msg))
  /\
  forall rec fuel cfg pre param param' rest data0 result0 counters0 st e,
    walk rec fuel cfg pre (mk_locals data0 result0 counters0 (Some 0) 0) = Finished st ->
    run_preproc (result st) param = Ok (Some param') ->
    decode_param rec fuel cfg param' st = Raise e ->
    cls e = EOSWhileReadingError ->
    let converted :=
      if fields.mandatory param'
      then exceptions.new RequiredParameterMissingError
             ("Required parameter missing: " ++ fields.name param')%string
      else exceptions.new IncompleteParameterError
             ("Not enough data to parse parameter " ++ fields.name param')%string in
    modca_code (cls converted) = (if fields.mandatory param' then 0x04 else 0x02)
    /\ parse_syntax_body rec fuel cfg (Some data0)
                         (pre ++ fields.SParam param :: rest)
                         (Some result0) (Some counters0)
       = (if strict cfg then Raise converted
          else r <- _add_exception converted (result st) ;;
               Ok (r, param_appearance_counters st, len (data st)))
    /\ forall r,
        _add_exception converted (result st) = Ok r ->
        exists old,
          (lookup (result st) "_exceptions" = Some (VList old)
           \/ (lookup (result st) "_exceptions" = None /\ old = []))
          /\ lookup r "_exceptions"
             = Some (VList (old ++ [VTuple [VInt (modca_code (cls converted));
                                            VStr (str converted)]]))
          /\ forall k, k <> "_exceptions"%string -> lookup r k = lookup (result st) k.
Proof.
  split; [exact parse_bytes_past_end|].
  intros rec fuel cfg pre param param' rest data0 result0 counters0 st e
         Hpre Hpp Hdec He converted.
  split; [|split].
  - subst converted. now destruct (fields.mandatory param').
  - unfold parse_syntax_body. rewrite walk_app, Hpre.
    rewrite (walk_cons_raise rec fuel cfg param param' rest st e Hpp).
    + cbn [after_walk]. rewrite He. cbn [exc_class_eqb].
      unfold convert_eos, missing_message, incomplete_message. subst converted.
      reflexivity.
    + unfold parse_param. now rewrite Hdec.
  - intros r Hr. now apply add_exception_appends.
Qed.

Lemma end_of_stream_is_converted_witness :
  parse_syntax_body (parse_syntax 0) 0 default_config (Some short_bdt_body)
                    fields.SYNTAX_FIELD_BDT (Some []) (Some [])
  = Ok ([("DocName"%string, VStr (strip (cp500_decode (firstn 8 short_bdt_body))));
         ("_exceptions"%string,
          VList [VTuple [VInt 0x04; VStr "0x04 Required parameter missing: Reserved"]])],
        [("DocName"%string, 1)], 9).
Proof.
  exact (proj1 (proj2
    (proj2 end_of_stream_is_converted
       (parse_syntax 0) 0%nat default_config
       [fields.SParam (fields.mk_ParameterType 0 8 fields.PTYPE_CHAR "DocName" true None)]
       (fields.mk_ParameterType 8 2 fields.PTYPE_BYTE "Reserved" true None)
       (fields.mk_ParameterType 8 2 fields.PTYPE_BYTE "Reserved" true None)
       [fields.SParam (fields.mk_ParameterType 10 0 fields.PTYPE_TRIPLET "Triplets" true None)]
       short_bdt_body [] []
       (mk_locals short_bdt_body
                  [("DocName"%string, VStr (strip (cp500_decode (firstn 8 short_bdt_body))))]
                  [("DocName"%string, 1)] (Some 0) 8)
       (exceptions.new EOSWhileReadingError
          ("Out of data while parsing 2 byte(s) from offset 8 of "
           ++ repr_list (map byte_val short_bdt_body))%string)
       eq_refl eq_refl eq_refl eq_refl))).
Defined.

(** ** Empty values *)

Lemma parse_triplets_nothing rec fuel data cfg offset :
  len data <= offset -> parse_triplets rec fuel data cfg offset = Ok [].
Proof.
  intros H. unfold parse_triplets.
  destruct (offset <? len data) eqn:E; [zbool; lia|].
  destruct fuel; simpl; now rewrite E.
Qed.

Lemma parse_ptoca_nothing rec fuel data cfg offset :
  len data <= offset -> parse_ptoca rec fuel data cfg offset = Ok [].
Proof.
  intros H. unfold parse_ptoca. now rewrite parse_ptoca_loop_exit.
Qed.

(** C10. A decoded value that is an empty list is treated as no value at
    all: [store_param] gives the same outcome as for [None]. The parameter
    is not stored (no key but [_exceptions] changes); if it is mandatory,
    RequiredParameterMissingError is raised in strict mode and added to
    [_exceptions] in lenient mode, after which the walk goes on with the
    parameters that follow. A triplet or PTOCA region that starts at or
    past the end of the data decodes to such an empty list. *)
Theorem empty_list_is_a_missing_parameter :
  forall cfg param v st,
    is_empty_list v = true ->
    store_param cfg param (Some v) st = store_param cfg param None st
    /\ (forall st',
           store_param cfg param (Some v) st = Ok st' ->
           forall k, k <> "_exceptions"%string ->
                     lookup (result st') k = lookup (result st) k)
    /\ store_param cfg param (Some v) st
       = (if fields.mandatory param then
            let e := exceptions.new RequiredParameterMissingError
                       ("Required parameter missing: " ++ fields.name param)%string in
            if strict cfg then Raise e
            else r <- _add_exception e (result st) ;;
                 Ok (mk_locals (data st) r (param_appearance_counters st)
                               (next_group_length st)
                               (fields.offset param + fields.length param))
          else Ok (mk_locals (data st) (result st) (param_appearance_counters st)
                             (next_group_length st)
                             (fields.offset param + fields.length param)))
    /\ (forall rec fuel param0 rest st0 st',
           run_preproc (result st0) param0 = Ok (Some param) ->
           decode_param rec fuel cfg param st0 = Ok (Some v, st) ->
           store_param cfg param (Some v) st = Ok st' ->
           walk rec fuel cfg (fields.SParam param0 :: rest) st0
           = walk rec fuel cfg rest st')
    /\ (forall rec fuel data offset,
           len data <= offset ->
           parse_triplets rec fuel data cfg offset = Ok []
           /\ parse_ptoca rec fuel data cfg offset = Ok []).
Proof.
  intros cfg param v st Hv.
  assert (Heq : store_param cfg param (Some v) st = store_param cfg param None st).
  { unfold store_param. now rewrite Hv. }
  assert (Hval : store_param cfg param None st
                 = (if fields.mandatory param then
                      let e := exceptions.new RequiredParameterMissingError
                                 ("Required parameter missing: " ++ fields.name param)%string in
                      if strict cfg then Raise e
                      else r <- _add_exception e (result st) ;;
                           Ok (mk_locals (data st) r (param_appearance_counters st)
                                         (next_group_length st)
                                         (fields.offset param + fields.length param))
                    else Ok (mk_locals (data st) (result st) (param_appearance_counters st)
                                       (next_group_length st)
                                       (fields.offset param + fields.length param)))).
  { unfold store_param, missing_message.
    destruct (fields.mandatory param); [|reflexivity].
    destruct (strict cfg); [reflexivity|]. cbv zeta.
    destruct (_add_exception _ (result st)); reflexivity. }
  split; [exact Heq|]. split; [|split; [|split]].
  - intros st' H k Hk. rewrite Heq, Hval in H.
    destruct (fields.mandatory param); [|now injection H as <-].
    destruct (strict cfg); [discriminate|]. cbv zeta in H.
    inv_bind_as H r Hr. injection H as <-. cbn [result].
    eapply add_exception_keeps; eauto.
  - now rewrite Heq.
  - intros rec fuel param0 rest st0 st' Hpp Hdec Hst.
    apply (walk_cons_param rec fuel cfg param0 param rest st0 st' Hpp).
    unfold parse_param. rewrite Hdec. exact Hst.
  - intros rec fuel data offset H.
    split; [now apply parse_triplets_nothing | now apply parse_ptoca_nothing].
Qed.

Lemma empty_list_is_a_missing_parameter_witness :
  is_empty_list (VList []) = true
  /\ store_param default_config
                 (fields.mk_ParameterType 10 0 fields.PTYPE_TRIPLET "Triplets" true None)
                 (Some (VList []))
                 (mk_locals [] [("DocName"%string, VStr "A")] [("DocName"%string, 1)]
                            (Some 0) 10)
     = store_param default_config
                   (fields.mk_ParameterType 10 0 fields.PTYPE_TRIPLET "Triplets" true None)
                   None
                   (mk_locals [] [("DocName"%string, VStr "A")] [("DocName"%string, 1)]
                              (Some 0) 10).
Proof.
  split; [reflexivity|].
  exact (proj1 (empty_list_is_a_missing_parameter
                  default_config
                  (fields.mk_ParameterType 10 0 fields.PTYPE_TRIPLET "Triplets" true None)
                  (VList [])
                  (mk_locals [] [("DocName"%string, VStr "A")] [("DocName"%string, 1)]
                             (Some 0) 10)
                  eq_refl)).
Defined.

(** ** Unique parameter names *)

Lemma str_int_inj (z z' : Z) : str_int z = str_int z' -> z = z'.
Proof.
  unfold str_int. intros H.
  assert (Hn : forall z, Z.to_int z <> Decimal.Pos Decimal.Nil
                         /\ Z.to_int z <> Decimal.Neg Decimal.Nil).
  { intros [|p|p]; simpl; split; try discriminate;
      intros [= E]; now apply (DecimalPos.Unsigned.to_uint_nonnil p). }
  apply DecimalZ.to_int_inj.
  assert (E : Some (Z.to_int z) = Some (Z.to_int z')); [|now injection E].
  rewrite <- (DecimalString.NilZero.isi (Z.to_int z)) by apply Hn.
  rewrite <- (DecimalString.NilZero.isi (Z.to_int z')) by apply Hn.
  now rewrite H.
Qed.

Lemma dash_split (m n x y : string) :
  has_dash m = false -> has_dash n = false ->
  (m ++ String "-" x)%string = (n ++ String "-" y)%string -> m = n /\ x = y.
Proof.
  revert n. induction m as [|c m IH]; intros [|d n] Hm Hn H; simpl in *.
  - now injection H.
  - injection H as <- _. discriminate Hn.
  - injection H as -> _. discriminate Hm.
  - injection H as -> H.
    destruct (Ascii.eqb d "-"); [discriminate|].
    destruct (IH n Hm Hn H) as [-> ->]. auto.
Qed.

Lemma occurrence_name_inj (m n : string) (j k : nat) :
  has_dash m = false -> has_dash n = false ->
  (1 <= j)%nat -> (1 <= k)%nat ->
  occurrence_name m j = occurrence_name n k -> m = n /\ j = k.
Proof.
  intros Hm Hn Hj Hk. unfold occurrence_name.
  destruct (j =? 1)%nat eqn:Ej, (k =? 1)%nat eqn:Ek; intros H.
  - apply Nat.eqb_eq in Ej, Ek. subst. auto.
  - subst m. change ("-" ++ ?x)%string with (String "-" x) in Hm.
    now rewrite has_dash_app in Hm.
  - subst n. change ("-" ++ ?x)%string with (String "-" x) in Hn.
    now rewrite has_dash_app in Hn.
  - change ("-" ++ ?x)%string with (String "-" x) in H.
    apply dash_split in H as [-> H]; auto.
    apply str_int_inj in H. split; [reflexivity | lia].
Qed.

Lemma unique_names_from_app (seen a : list string) (n : string) :
  unique_names_from seen (a ++ [n])
  = unique_names_from seen a
    ++ [occurrence_name n (S (count_occ string_dec (seen ++ a) n))].
Proof.
  revert seen. induction a as [|x a IH]; intros seen; simpl.
  - now rewrite app_nil_r.
  - rewrite IH. now rewrite <- app_assoc.
Qed.

Lemma unique_names_snoc (seen : list string) (n : string) :
  unique_names (seen ++ [n])
  = unique_names seen ++ [occurrence_name n (S (count_occ string_dec seen n))].
Proof. unfold unique_names. now rewrite unique_names_from_app. Qed.

(** Every key is the name of some occurrence that has taken place. *)
Lemma unique_names_In (seen : list string) (u : string) :
  In u (unique_names seen) ->
  exists m j, (1 <= j <= count_occ string_dec seen m)%nat /\ u = occurrence_name m j.
Proof.
  induction seen as [|n seen IH] using rev_ind; [intros []|].
  rewrite unique_names_snoc. intros H. apply in_app_or in H as [H|[<-|[]]].
  - destruct (IH H) as (m & j & Hj & ->). exists m, j. split; [|reflexivity].
    rewrite count_occ_app. lia.
  - exists n, (S (count_occ string_dec seen n)). split; [|reflexivity].
    rewrite count_occ_app. simpl. destruct (string_dec n n); [lia | contradiction].
Qed.

Lemma occurrence_name_fresh (seen : list string) (n : string) :
  Forall (fun m => has_dash m = false) seen -> has_dash n = false ->
  ~ In (occurrence_name n (S (count_occ string_dec seen n))) (unique_names seen).
Proof.
  intros Hs Hn H. apply unique_names_In in H as (m & j & Hj & E).
  assert (Hm : has_dash m = false).
  { rewrite Forall_forall in Hs. apply Hs.
    apply (count_occ_In string_dec). lia. }
  apply occurrence_name_inj in E as [-> E]; auto; lia.
Qed.

Lemma unique_names_NoDup (names : list string) :
  Forall (fun m => has_dash m = false) names -> NoDup (unique_names names).
Proof.
  induction names as [|n names IH] using rev_ind; intros H; [constructor|].
  apply Forall_app in H as [Hs Hn]. inversion Hn; subst.
  rewrite unique_names_snoc.
  apply NoDup_app; [now apply IH | repeat constructor; auto | ].
  intros u Hu [<-|[]]. now apply (occurrence_name_fresh names n).
Qed.

Lemma unique_names_bare (seen : list string) (n : string) :
  has_dash n = false -> Forall (fun m => has_dash m = false) seen ->
  (In n (unique_names seen) <-> In n seen).
Proof.
  intros Hn Hs. split.
  - intros H. apply unique_names_In in H as (m & j & Hj & E).
    assert (Hm : In m seen) by (apply (count_occ_In string_dec); lia).
    unfold occurrence_name in E. destruct (j =? 1)%nat; [now subst|].
    subst n. change ("-" ++ ?x)%string with (String "-" x) in Hn.
    now rewrite has_dash_app in Hn.
  - induction seen as [|x seen IH] using rev_ind; [intros []|].
    apply Forall_app in Hs as [Hs Hx]. inversion Hx; subst.
    rewrite unique_names_snoc. intros H. apply in_or_app.
    destruct (in_dec string_dec n seen) as [Hin|Hnin].
    + left. apply IH; auto.
    + right. apply in_app_or in H as [H|[->|[]]]; [contradiction|].
      apply (count_occ_not_In string_dec) in Hnin. rewrite Hnin. now left.
Qed.

Lemma keys_app {V} (a b : dict V) : keys (a ++ b) = keys a ++ keys b.
Proof. apply map_app. Qed.

Lemma contains_false_keys {V} (d : dict V) (k : string) :
  contains d k = false <-> ~ In k (keys d).
Proof.
  rewrite <- contains_keys. destruct (contains d k); split; auto; try discriminate.
  intros H. now contradiction H.
Qed.

Lemma add_params_spec (l : list (string * value)) :
  forall (seen : list string) (r : dict value) (c : dict Z),
    Forall (fun n => has_dash n = false) seen ->
    Forall (fun n => has_dash n = false) (map fst l) ->
    keys r = unique_names seen ->
    (forall n, In n seen ->
               lookup c n = Some (Z.of_nat (count_occ string_dec seen n))) ->
    exists c',
      add_params l r c
      = Ok (r ++ combine (unique_names_from seen (map fst l)) (map snd l), c').
Proof.
  induction l as [|[name v] l IH]; intros seen r c Hs Hl Hk Hc.
  - exists c. simpl. now rewrite app_nil_r.
  - simpl in Hl. inversion Hl as [|? ? Hname Hl']; subst.
    cbn [add_params map fst snd unique_names_from combine].
    assert (Hfresh := occurrence_name_fresh seen name Hs Hname).
    rewrite <- Hk in Hfresh. apply contains_false_keys in Hfresh.
    assert (Hs' : Forall (fun n => has_dash n = false) (seen ++ [name]))
      by (apply Forall_app; auto).
    assert (Hk' : keys (r ++ [(occurrence_name name (S (count_occ string_dec seen name)), v)])
                  = unique_names (seen ++ [name])).
    { now rewrite keys_app, Hk, unique_names_snoc. }
    unfold _add_param. destruct (contains r name) eqn:E; cbn [negb].
    + (* the name is already a key *)
      assert (Hin : In name seen).
      { apply (unique_names_bare seen name Hname Hs). rewrite <- Hk.
        now apply contains_keys. }
      unfold getitem. rewrite (Hc name Hin). cbn [bind].
      set (k := count_occ string_dec seen name) in *.
      assert (Hpos : (1 <= k)%nat) by (apply (count_occ_In string_dec) in Hin; subst k; lia).
      assert (Hu : (name ++ "-" ++ str_int (Z.of_nat k + 1))%string
                   = occurrence_name name (S k)).
      { unfold occurrence_name. destruct (S k =? 1)%nat eqn:E1;
          [apply Nat.eqb_eq in E1; lia|].
        now rewrite Nat2Z.inj_succ, <- Z.add_1_r. }
      rewrite Hu, (setitem_absent _ _ _ Hfresh).
      destruct (IH (seen ++ [name]) _ (setitem c name (Z.of_nat k + 1)) Hs' Hl' Hk')
        as (c' & Hc').
      * intros n Hn. rewrite count_occ_app. simpl.
        destruct (string_dec name n) as [->|Hne].
        -- rewrite lookup_setitem_same. f_equal. subst k. lia.
        -- rewrite lookup_setitem_other by exact Hne.
           apply in_app_or in Hn as [Hn|[Hn|[]]]; [|contradiction].
           rewrite (Hc n Hn). f_equal. lia.
      * exists c'. rewrite Hc'. now rewrite <- app_assoc.
    + (* first occurrence *)
      assert (Hnin : ~ In name seen).
      { intros Hin. apply (unique_names_bare seen name Hname Hs) in Hin.
        rewrite <- Hk in Hin. apply contains_keys in Hin. congruence. }
      apply (count_occ_not_In string_dec) in Hnin.
      rewrite Hnin in *. change (occurrence_name name 1) with name in *.
      rewrite (setitem_absent _ _ _ E).
      destruct (IH (seen ++ [name]) _ (setitem c name 1) Hs' Hl' Hk') as (c' & Hc').
      * intros n Hn. rewrite count_occ_app. simpl.
        destruct (string_dec name n) as [->|Hne].
        -- rewrite lookup_setitem_same. f_equal. lia.
        -- rewrite lookup_setitem_other by exact Hne.
           apply in_app_or in Hn as [Hn|[Hn|[]]]; [|contradiction].
           rewrite (Hc n Hn). f_equal. lia.
      * exists c'. cbn [bind]. rewrite Hc'. now rewrite <- app_assoc.
Qed.

Lemma unique_names_from_nth (names : list string) :
  forall (seen : list string) (i : nat) (name : string),
    nth_error names i = Some name ->
    nth_error (unique_names_from seen names) i
    = Some (occurrence_name
              name (S (count_occ string_dec (seen ++ firstn i names) name))).
Proof.
  induction names as [|n names IH]; intros seen [|i] name H; simpl in *;
    try discriminate.
  - injection H as ->. now rewrite app_nil_r.
  - rewrite (IH (seen ++ [n]) i name H). now rewrite <- app_assoc.
Qed.

(** The names in the tables of the package contain no dash. *)
Lemma catalogue_names_have_no_dash :
  Forall (fun n => has_dash n = false) catalogue_names.
Proof.
  apply Forall_forall. intros n Hn.
  assert (H : forallb (fun n => negb (has_dash n)) catalogue_names = true)
    by (vm_compute; reflexivity).
  rewrite forallb_forall in H. apply H in Hn. now apply negb_true_iff in Hn.
Qed.

Lemma keys_setitem {V} (d : dict V) k v :
  keys (setitem d k v) = if contains d k then keys d else keys d ++ [k].
Proof.
  induction d as [|[k' v'] d IH]; simpl; [reflexivity|].
  destruct (String.eqb k' k); simpl; [reflexivity|].
  rewrite IH. now destruct (contains d k).
Qed.

Lemma setitem_NoDup {V} (d : dict V) k v :
  NoDup (keys d) -> NoDup (keys (setitem d k v)).
Proof.
  intros H. rewrite keys_setitem. destruct (contains d k) eqn:E; [exact H|].
  apply NoDup_app; [exact H | repeat constructor; auto | ].
  intros u Hu [<-|[]]. apply contains_false_keys in E. contradiction.
Qed.

(** The keys of a dictionary that [parse_syntax] returns are pairwise
    distinct. *)
Lemma parse_syntax_NoDup fuel data syntax cfg r c r' c' n :
  NoDup (keys (match r with Some r => r | None => [] end)) ->
  parse_syntax fuel data syntax cfg r c = Ok (r', c', n) ->
  NoDup (keys r').
Proof.
  apply (parse_syntax_inv (fun r => NoDup (keys r))).
  - intros name v r0 c0 u r0' c0' Hr _ H. unfold _add_param in H.
    destruct (contains r0 name); cbn [negb] in H.
    + inv_bind_as H k Hk. injection H as <- <- <-. now apply setitem_NoDup.
    + injection H as <- <- <-. now apply setitem_NoDup.
  - intros e r0 r0' Hr H. apply add_exception_nonempty in H as (l & -> & _).
    apply setitem_NoDup. destruct (negb _); [now apply setitem_NoDup | exact Hr].
Qed.

Lemma read_structured_field_NoDup fuel f cfg sf f' :
  read_structured_field fuel f cfg = Ok (Some sf, f') -> NoDup (keys sf).
Proof.
  unfold read_structured_field. intros H.
  inv_bind_as H [[b|] f1] Hb; [|discriminate].
  destruct (negb (b =? CARRIAGE_CONTROL_CHAR)); [discriminate|].
  inv_bind_as H [L f2] HL. inv_bind_as H [data f3] Hdata.
  inv_bind_as H [[sf0 c0] n0] Hsfi. inv_bind_as H tv Htv. inv_bind_as H t Ht.
  destruct (negb _); [discriminate|].
  inv_bind_as H flag Hflag. inv_bind_as H pad Hpad. destruct pad; [discriminate|].
  inv_bind_as H sf_type Htype. inv_bind_as H seg Hseg. inv_bind_as H ext Hext.
  inv_bind_as H dbg Hdbg. inv_bind_as H start Hstart.
  inv_bind_as H [[sf1 c1] n1] Hbody. injection H as <- <-.
  eapply parse_syntax_NoDup; [|exact Hbody]. cbv iota.
  apply setitem_NoDup.
  eapply parse_syntax_NoDup; [|exact Hsfi]. constructor.
Qed.

(** C9. The keys of a decoded record are pairwise distinct, for every
    dictionary that [parse_syntax] returns and every record that
    [read_structured_field] returns. As for the names chosen: let
    parameters be added to a fresh record under names that no dash occurs
    in (as is the case of every name in the tables). Then the record holds
    one entry per parameter, in the order of insertion, and the key of a
    parameter whose name occurs for the k-th time is the bare name when
    k = 1 and the name followed by [-k] otherwise. *)
Theorem add_param_names_are_unique :
  (forall l : list (string * value),
      Forall (fun n => has_dash n = false) (map fst l) ->
      (exists counters,
          add_params l [] []
          = Ok (combine (unique_names (map fst l)) (map snd l), counters))
      /\ NoDup (unique_names (map fst l))
      /\ List.length (unique_names (map fst l)) = List.length l
      /\ forall i name,
          nth_error (map fst l) i = Some name ->
          let k := S (count_occ string_dec (firstn i (map fst l)) name) in
          nth_error (unique_names (map fst l)) i
          = Some (if (k =? 1)%nat then name
                  else (name ++ "-" ++ str_int (Z.of_nat k))%string))
  /\ (forall fuel data syntax cfg r c n,
         parse_syntax fuel data syntax cfg None None = Ok (r, c, n) ->
         NoDup (keys r))
  /\ (forall fuel f cfg sf f',
         read_structured_field fuel f cfg = Ok (Some sf, f') ->
         NoDup (keys sf)).
Proof.
  split; [|split].
  - intros l Hl. repeat split.
    + destruct (add_params_spec l [] [] [] (Forall_nil _) Hl eq_refl) as (c & Hc).
      * intros n [].
      * now exists c.
    + now apply unique_names_NoDup.
    + unfold unique_names. generalize (@nil string).
      induction l as [|[n v] l IH]; intros seen; simpl; auto.
      inversion Hl; subst. now rewrite IH.
    + intros i name H. apply (unique_names_from_nth _ [] i name H).
  - intros fuel data syntax cfg r c n H.
    eapply parse_syntax_NoDup; [|exact H]. constructor.
  - intros. eapply read_structured_field_NoDup; eauto.
Qed.

Lemma add_param_names_are_unique_witness :
  exists counters,
    add_params [("Reserved"%string, VInt 1); ("DocName"%string, VInt 2);
                ("Reserved"%string, VInt 3); ("Reserved"%string, VInt 4)] [] []
    = Ok ([("Reserved"%string, VInt 1); ("DocName"%string, VInt 2);
           ("Reserved-2"%string, VInt 3); ("Reserved-3"%string, VInt 4)], counters).
Proof.
  apply (proj1 (proj1 add_param_names_are_unique
                         [("Reserved"%string, VInt 1); ("DocName"%string, VInt 2);
                          ("Reserved"%string, VInt 3); ("Reserved"%string, VInt 4)]
                         ltac:(repeat constructor))).
Defined.

(** ** Triplets shorter than their header *)

Lemma parse_bytes_negative (data : list byte) (n offset : Z) :
  n < 0 -> offset < len data -> offset + n <= len data ->
  parse_bytes data n offset = Ok (Some []).
Proof.
  intros Hn Ho Hl. unfold parse_bytes.
  destruct (n =? 0) eqn:E; [zbool; lia|].
  destruct (offset >=? len data) eqn:E1; [zbool; lia|].
  destruct (offset + n >? len data) eqn:E2; [zbool; lia|].
  unfold range. replace (Z.to_nat (offset + n - offset)) with 0%nat by lia.
  reflexivity.
Qed.

(** One iteration of the loop of [parse_triplets] on a header whose Tlength
    is below 2, when at least one byte follows the header: the contents are
    the empty list, no error is raised by the driver, and the loop goes on
    [Tlength] bytes further. *)
Lemma parse_triplets_loop_short rec fuel data cfg p i acc tl t_id triplet_type :
  p < len data -> p + 2 < len data ->
  parse_ubin data 1 p = Ok (Some tl) ->
  parse_code data 1 (p + 1) = Ok (Some t_id) ->
  0 <= tl < 2 ->
  lookup_id triplets.TRIPLET_TYPES t_id = triplet_type ->
  (triplet_type = None -> allow_unknown_triplets cfg = true) ->
  parse_triplets_loop rec (S fuel) data cfg p i acc
  = ('(triplet, _, _) <-
       rec (Some [])
           (match triplet_type with
            | Some t => match triplets.t_syntax t with
                        | Some s => s
                        | None => triplets.SYNTAX_TRIPLET_RAW
                        end
            | None => triplets.SYNTAX_TRIPLET_RAW
            end) cfg None None ;;
     parse_triplets_loop rec fuel data cfg (p + tl) (i + 1)
       (acc ++ [VDict (setitem (setitem triplet triplets.PNAME_T_LENGTH (VInt tl))
                               triplets.PNAME_T_ID (VInt t_id))])).
Proof.
  intros Hp Hp2 Hlen Hid Htl Hty Hallow. cbn [parse_triplets_loop].
  destruct (p <? len data) eqn:E; [|zbool; lia].
  rewrite Hlen, Hid. cbn [bind]. rewrite Hty.
  rewrite parse_bytes_negative by lia.
  destruct triplet_type as [t|]; [reflexivity|].
  rewrite Hallow by reflexivity. reflexivity.
Qed.

(** C4 fails on the code. In [one_length_triplet] the first triplet header
    has Tlength 1 and is followed by more bytes: in lenient mode
    [parse_triplets] raises nothing, it decodes an empty body (the three
    parameters of the triplet are reported missing in the triplet's own
    [_exceptions]) and goes on one byte further, reading the Tid byte as the
    next Tlength; in strict mode the error raised is
    RequiredParameterMissingError, from the empty body. In neither mode is
    InvalidTripletError raised. *)
Theorem short_triplet_is_not_rejected :
  forall k : nat,
    stream (5 + k) one_length_triplet false false false false
    = ([one_length_triplet_record], StopIteration)
    /\ stream (5 + k) one_length_triplet false false false true
       = ([], Raises (mk_exn RequiredParameterMissingError
                             "Required parameter missing: FQNType" (Some 1) (Some 0))).
Proof. intros k. split; reflexivity. Qed.

(** ** Loops that make no progress *)

Lemma parse_triplets_loop_zero_length rec :
  (rec (Some []) triplets.SYNTAX_TRIPLET_02 default_config None None = OutOfFuel
   \/ exists r, rec (Some []) triplets.SYNTAX_TRIPLET_02 default_config None None = Ok r) ->
  forall n i acc,
    parse_triplets_loop rec n [x00; x02; x00] default_config 0 i acc = OutOfFuel.
Proof.
  intros Hrec n. induction n as [|n IH]; intros i acc; [reflexivity|].
  rewrite (parse_triplets_loop_short rec n [x00; x02; x00] default_config 0 i acc 0 2
             (lookup_id triplets.TRIPLET_TYPES 2));
    try reflexivity; try lia; try discriminate.
  change (lookup_id triplets.TRIPLET_TYPES 2)
    with (Some (triplets.mk_TripletType "Fully Qualified Name"
                                        (Some triplets.SYNTAX_TRIPLET_02))).
  cbv iota. cbn [triplets.t_syntax].
  destruct Hrec as [->|[[[r c] m] ->]]; [reflexivity|].
  cbn [bind]. apply IH.
Qed.

Lemma parse_syntax_nothing_fqn k :
  parse_syntax k (Some []) triplets.SYNTAX_TRIPLET_02 default_config None None = OutOfFuel
  \/ exists r,
      parse_syntax k (Some []) triplets.SYNTAX_TRIPLET_02 default_config None None = Ok r.
Proof. destruct k; [now left | right; eexists; reflexivity]. Qed.

Lemma zero_length_triplet_sfi k :
  parse_syntax (S k) (Some [xd3; xa0; x90; x00; x00; x00; x00; x02; x00])
               fields.SYNTAX_SFI default_config None (Some [])
  = Ok ([("SFTypeID"%string, VInt 0xD3A090); ("FlagByte"%string, VInt 0);
         ("Reserved"%string, VList [VInt 0; VInt 0])],
        [("SFTypeID"%string, 1); ("FlagByte"%string, 1); ("Reserved"%string, 1)], 9).
Proof. reflexivity. Qed.

Lemma zero_length_triplet_body k sf c :
  parse_syntax (S k) (Some [x00; x02; x00]) fields.SYNTAX_FIELD_TLE default_config
               (Some sf) (Some c)
  = OutOfFuel.
Proof.
  cbn [parse_syntax]. unfold parse_syntax_body, fields.SYNTAX_FIELD_TLE.
  cbn [walk run_preproc fields.preproc]. unfold parse_param, decode_param.
  cbn [fields.datatype fields.offset data]. unfold parse_triplets.
  rewrite parse_triplets_loop_zero_length by apply parse_syntax_nothing_fqn.
  reflexivity.
Qed.

Lemma zero_length_triplet_hangs fuel :
  read_structured_field fuel zero_length_triplet default_config = OutOfFuel.
Proof.
  destruct fuel as [|k]; [reflexivity|].
  unfold read_structured_field, zero_length_triplet, file_of.
  rewrite (read_byte_cons (mk_file 0 _) x5a _ eq_refl). cbn [bind position].
  change (negb (byte_val x5a =? CARRIAGE_CONTROL_CHAR)) with false. cbv iota.
  rewrite (read_ubin_app (mk_file (0 + 1) [x00; x0b; xd3; xa0; x90; x00; x00; x00; x00; x02; x00])
                         2 [x00; x0b] [xd3; xa0; x90; x00; x00; x00; x00; x02; x00]
                         eq_refl eq_refl eq_refl).
  cbn [bind try_except position].
  rewrite (read_bytes_app (mk_file (0 + 1 + 2) [xd3; xa0; x90; x00; x00; x00; x00; x02; x00])
                          (ubin_of_bytes [x00; x0b] - 2)
                          [xd3; xa0; x90; x00; x00; x00; x00; x02; x00] []
                          eq_refl eq_refl eq_refl).
  cbn [bind try_except]. rewrite zero_length_triplet_sfi.
  cbn -[parse_syntax skipn].
  change (skipn _ _) with [x00; x02; x00].
  now rewrite zero_length_triplet_body.
Qed.

(** One iteration of the loop of [parse_ptoca] that raises nothing. *)
Lemma parse_ptoca_loop_step rec fuel data cfg (chained : bool) p i acc
      length function fn function_data :
  p < len data ->
  (chained = false -> parse_ubin data 2 p = Ok (Some PTX_ESCAPE_SEQUENCE)) ->
  let q := if chained then p else p + 2 in
  parse_ubin data 1 q = Ok (Some length) ->
  parse_ubin data 1 (q + 1) = Ok (Some function) ->
  lookup_id functions.FUNCTIONS function = Some fn ->
  parse_bytes data (length - 2) (q + 1 + 1) = Ok function_data ->
  (function_data = None -> length - 2 <= 0) ->
  parse_ptoca_loop rec (S fuel) data cfg chained p i acc
  = ('(ctrl_sequence, _, _) <-
       rec function_data
           (match functions.fn_syntax fn with
            | Some s => s
            | None => functions.SYNTAX_FUNCTION_RAW
            end) cfg None None ;;
     parse_ptoca_loop rec fuel data cfg (functions.chained_function function)
       (q + 1 + 1 + (length - 2)) (i + 1)
       (acc ++ [VDict (setitem (setitem ctrl_sequence functions.PNAME_CS_LENGTH
                                        (VInt length))
                               functions.PNAME_CS_TYPE (VInt function))])).
Proof.
  intros Hp Hesc q Hlen Hfn Hinfo Hdata Hnone. cbn [parse_ptoca_loop].
  destruct (p <? len data) eqn:E; [|zbool; lia].
  assert (Hq : (if negb chained
                then escape_sequence <-
                       try_except EOSWhileReadingError (parse_ubin data 2 p)
                         (fun _ =>
                            Raise (exceptions.new InvalidControlSequenceError
                                     ("Not enough data to parse control sequence "
                                      ++ str_int (i + 1) ++ " escape sequence")%string)) ;;
                     match escape_sequence with
                     | Some e =>
                         if e =? PTX_ESCAPE_SEQUENCE then Ok (p + 2)
                         else Raise (exceptions.new InvalidControlSequenceError
                                       ("Missing 0x" ++ format_X 0 PTX_ESCAPE_SEQUENCE
                                        ++ " escape sequence before control sequence "
                                        ++ str_int (i + 1))%string)
                     | None =>
                         Raise (exceptions.new InvalidControlSequenceError
                                  ("Missing 0x" ++ format_X 0 PTX_ESCAPE_SEQUENCE
                                   ++ " escape sequence before control sequence "
                                   ++ str_int (i + 1))%string)
                     end
                else Ok p) = Ok q).
  { subst q. destruct chained; [reflexivity|]. cbn [negb].
    rewrite (Hesc eq_refl). cbn [try_except bind]. now rewrite Z.eqb_refl. }
  rewrite Hq. cbn [bind]. rewrite Hlen. cbn [bind]. rewrite Hfn. cbn [bind].
  rewrite Hinfo. cbn [bind]. rewrite Hdata. cbn [bind].
  destruct function_data as [d|]; cbn [try_except bind]; [reflexivity|].
  destruct (length - 2 >? 0) eqn:E1; [zbool; specialize (Hnone eq_refl); lia|].
  reflexivity.
Qed.

Lemma parse_ptoca_loop_zero_length rec :
  (rec None functions.SYNTAX_FUNCTION_TRN default_config None None = OutOfFuel
   \/ exists r, rec None functions.SYNTAX_FUNCTION_TRN default_config None None = Ok r) ->
  forall n i acc,
    parse_ptoca_loop rec n [x2b; xd3; x02; xdb; x00; xdb] default_config true 4 i acc
    = OutOfFuel.
Proof.
  intros Hrec n. induction n as [|n IH]; intros i acc; [reflexivity|].
  rewrite (parse_ptoca_loop_step rec n _ default_config true 4 i acc 0 0xDB
             functions.FN_INFO_TRN None);
    try reflexivity; try lia; try discriminate.
  cbn [functions.fn_syntax functions.FN_INFO_TRN].
  destruct Hrec as [->|[[[r c] m] ->]]; [reflexivity|].
  cbn [bind]. apply IH.
Qed.

Lemma parse_syntax_nothing_trn k :
  parse_syntax k None functions.SYNTAX_FUNCTION_TRN default_config None None = OutOfFuel
  \/ exists r,
      parse_syntax k None functions.SYNTAX_FUNCTION_TRN default_config None None = Ok r.
Proof. destruct k; [now left | right; eexists; reflexivity]. Qed.

Lemma parse_syntax_rest_trn k :
  parse_syntax k (Some [x00; xdb]) functions.SYNTAX_FUNCTION_TRN default_config None None
  = OutOfFuel
  \/ exists r,
      parse_syntax k (Some [x00; xdb]) functions.SYNTAX_FUNCTION_TRN default_config
                   None None = Ok r.
Proof. destruct k; [now left | right; eexists; reflexivity]. Qed.

Lemma zero_length_function_loop k :
  parse_ptoca (parse_syntax k) k [x2b; xd3; x02; xdb; x00; xdb] default_config 0
  = OutOfFuel.
Proof.
  unfold parse_ptoca. destruct k as [|n]; [reflexivity|].
  rewrite (parse_ptoca_loop_step _ n _ default_config false 0 0 [] 2 0xDB
             functions.FN_INFO_TRN (Some [x00; xdb]));
    try reflexivity; try lia; try discriminate.
  cbn [functions.fn_syntax functions.FN_INFO_TRN].
  destruct (parse_syntax_rest_trn (S n)) as [->|[[[r c] m] ->]]; [reflexivity|].
  cbn [bind].
  apply (parse_ptoca_loop_zero_length _ (parse_syntax_nothing_trn (S n))).
Qed.

Lemma zero_length_function_sfi k :
  parse_syntax (S k) (Some [xd3; xee; x9b; x00; x00; x00; x2b; xd3; x02; xdb; x00; xdb])
               fields.SYNTAX_SFI default_config None (Some [])
  = Ok ([("SFTypeID"%string, VInt 0xD3EE9B); ("FlagByte"%string, VInt 0);
         ("Reserved"%string, VList [VInt 0; VInt 0])],
        [("SFTypeID"%string, 1); ("FlagByte"%string, 1); ("Reserved"%string, 1)], 12).
Proof. reflexivity. Qed.

Lemma zero_length_function_body k sf c :
  parse_syntax (S k) (Some [x2b; xd3; x02; xdb; x00; xdb]) fields.SYNTAX_FIELD_PTX
               default_config (Some sf) (Some c)
  = OutOfFuel.
Proof.
  cbn [parse_syntax]. unfold parse_syntax_body, fields.SYNTAX_FIELD_PTX.
  cbn [walk run_preproc fields.preproc]. unfold parse_param, decode_param.
  cbn [fields.datatype fields.offset data].
  now rewrite zero_length_function_loop.
Qed.

Lemma zero_length_function_hangs fuel :
  read_structured_field fuel zero_length_function default_config = OutOfFuel.
Proof.
  destruct fuel as [|k]; [reflexivity|].
  unfold read_structured_field, zero_length_function, file_of.
  rewrite (read_byte_cons (mk_file 0 _) x5a _ eq_refl). cbn [bind position].
  change (negb (byte_val x5a =? CARRIAGE_CONTROL_CHAR)) with false. cbv iota.
  rewrite (read_ubin_app
             (mk_file (0 + 1) [x00; x0e; xd3; xee; x9b; x00; x00; x00;
                               x2b; xd3; x02; xdb; x00; xdb])
             2 [x00; x0e]
                         [xd3; xee; x9b; x00; x00; x00; x2b; xd3; x02; xdb; x00; xdb]
                         eq_refl eq_refl eq_refl).
  cbn [bind try_except position].
  rewrite (read_bytes_app
             (mk_file (0 + 1 + 2) [xd3; xee; x9b; x00; x00; x00; x2b; xd3; x02; xdb; x00; xdb])
             (ubin_of_bytes [x00; x0e] - 2)
                          [xd3; xee; x9b; x00; x00; x00; x2b; xd3; x02; xdb; x00; xdb] []
                          eq_refl eq_refl eq_refl).
  cbn [bind try_except]. rewrite zero_length_function_sfi.
  cbn -[parse_syntax skipn].
  change (skipn _ _) with [x2b; xd3; x02; xdb; x00; xdb].
  now rewrite zero_length_function_body.
Qed.

Lemma stream_hangs fuel f :
  (forall k, read_structured_field k f default_config = OutOfFuel) ->
  stream fuel f false false false false = ([], Running).
Proof.
  intros H. unfold stream. destruct fuel as [|n]; [reflexivity|].
  cbn [stream_loop]. change (mk_ParserConfig false false false false) with default_config.
  now rewrite H.
Qed.

(** C3, at two inputs the parser can receive. Each begins with a valid
    framing (0x5A, a length, a known type with class byte 0xD3) and is
    parsed in lenient mode. In the first a triplet has Tlength 0, in the
    second a chained control sequence has LENGTH 0: the loop of the driver
    comes back to the same position, so whatever the fuel the parser has
    neither yielded a record nor raised an error. *)
Theorem zero_lengths_never_return :
  forall fuel : nat,
    stream fuel zero_length_triplet false false false false = ([], Running)
    /\ stream fuel zero_length_function false false false false = ([], Running).
Proof.
  intros fuel. split; apply stream_hangs.
  - apply zero_length_triplet_hangs.
  - apply zero_length_function_hangs.
Qed.

(** ** Empty lists are never stored *)

Lemma setitem_Forall {V} (P : string * V -> Prop) (d : dict V) k v :
  (forall k', P (k', v)) -> Forall P d -> Forall P (setitem d k v).
Proof.
  intros Hv H. induction H as [|[k0 v0] d H0 H IH]; simpl.
  - repeat constructor. apply Hv.
  - destruct (String.eqb k0 k); constructor; auto.
Qed.

Lemma setitem_setitem {V} (d : dict V) k v0 v :
  setitem (setitem d k v0) k v = setitem d k v.
Proof.
  induction d as [|[k' v'] d IH]; simpl.
  - now rewrite String.eqb_refl.
  - destruct (String.eqb k' k) eqn:E; simpl; rewrite E; [reflexivity | now rewrite IH].
Qed.

Lemma lookup_Forall {V} (P : string * V -> Prop) (d : dict V) k v :
  Forall P d -> lookup d k = Some v -> exists k', P (k', v).
Proof.
  intros H. induction H as [|[k0 v0] d H0 H IH]; simpl; [discriminate|].
  destruct (String.eqb k0 k); [|exact IH].
  intros [= <-]. eauto.
Qed.

Lemma add_param_no_empty_list name v r c u r' c' :
  no_empty_list r -> is_empty_list v = false ->
  _add_param name v r c = Ok (u, r', c') -> no_empty_list r'.
Proof.
  intros Hr Hv H. unfold _add_param in H.
  destruct (contains r name); cbn [negb] in H.
  - inv_bind_as H k Hk. injection H as <- <- <-. now apply setitem_Forall.
  - injection H as <- <- <-. now apply setitem_Forall.
Qed.

Lemma add_exception_no_empty_list e r r' :
  no_empty_list r -> _add_exception e r = Ok r' -> no_empty_list r'.
Proof.
  intros Hr H. apply add_exception_nonempty in H as (l & -> & Hl).
  assert (Hne : forall k' : string, is_empty_list (snd (k', VList l)) = false)
    by (intros; destruct l; [contradiction | reflexivity]).
  destruct (negb (contains r PNAME_EXCEPTIONS)).
  - rewrite setitem_setitem. now apply setitem_Forall.
  - now apply setitem_Forall.
Qed.

(** No call of [parse_syntax] puts an empty list in its result. *)
Lemma parse_syntax_no_empty_list fuel data syntax cfg r c r' c' n :
  no_empty_list (match r with Some r => r | None => [] end) ->
  parse_syntax fuel data syntax cfg r c = Ok (r', c', n) ->
  no_empty_list r'.
Proof.
  apply (parse_syntax_inv no_empty_list).
  - intros. eapply add_param_no_empty_list; eauto.
  - intros. eapply add_exception_no_empty_list; eauto.
Qed.

Lemma read_structured_field_no_empty_list fuel f cfg sf f' :
  read_structured_field fuel f cfg = Ok (Some sf, f') -> no_empty_list sf.
Proof.
  unfold read_structured_field. intros H.
  inv_bind_as H [[b|] f1] Hb; [|discriminate].
  destruct (negb (b =? CARRIAGE_CONTROL_CHAR)); [discriminate|].
  inv_bind_as H [L f2] HL. inv_bind_as H [data f3] Hdata.
  inv_bind_as H [[sf0 c0] n0] Hsfi. inv_bind_as H tv Htv. inv_bind_as H t Ht.
  destruct (negb _); [discriminate|].
  inv_bind_as H flag Hflag. inv_bind_as H pad Hpad. destruct pad; [discriminate|].
  inv_bind_as H sf_type Htype. inv_bind_as H seg Hseg. inv_bind_as H ext Hext.
  inv_bind_as H dbg Hdbg. inv_bind_as H start Hstart.
  inv_bind_as H [[sf1 c1] n1] Hbody. injection H as <- <-.
  eapply parse_syntax_no_empty_list; [|exact Hbody]. cbv iota.
  apply setitem_Forall; [reflexivity|].
  eapply parse_syntax_no_empty_list; [|exact Hsfi]. constructor.
Qed.


(** ** The extension of the introducer *)

Lemma parse_bytes_rest (data : list byte) (offset : Z) :
  0 <= offset -> offset < len data ->
  parse_bytes data 0 offset = Ok (Some (skipn (Z.to_nat offset) data)).
Proof.
  intros Ho Hl. unfold parse_bytes. rewrite Z.eqb_refl.
  destruct (offset >=? len data) eqn:E1; [zbool; lia|].
  destruct (offset + (len data - offset) >? len data) eqn:E2; [zbool; lia|].
  unfold range.
  replace (offset + (len data - offset) - offset) with (len data - offset) by lia.
  rewrite (map_ext _ (fun i => Z.of_nat (Z.to_nat offset) + Z.of_nat i)) by (intros; lia).
  unfold len in *.
  rewrite comprehension_index by lia. simpl.
  rewrite firstn_all2; [reflexivity|]. rewrite length_skipn. lia.
Qed.

Lemma parse_bytes_at_end (data : list byte) (n offset : Z) :
  0 <= n -> len data <= offset -> parse_bytes data n offset = Ok None.
Proof.
  intros Hn Hl. unfold parse_bytes.
  destruct (n =? 0);
    (destruct (offset >=? len data) eqn:E; [reflexivity | zbool; lia]).
Qed.

(** No record holds ExtData as an empty sequence. *)
Lemma ext_data_is_never_empty fuel f cfg sf f' :
  read_structured_field fuel f cfg = Ok (Some sf, f') ->
  lookup sf "ExtData" <> Some (VList []).
Proof.
  intros H Hl. apply read_structured_field_no_empty_list in H.
  destruct (lookup_Forall _ _ _ _ H Hl) as (k & Hk). discriminate Hk.
Qed.

(** The descriptor that [_set_extension_length] returns for ExtData when
    the extension flag is set: its length is ExtLength - 1. *)
Lemma ext_data_descriptor (r : dict value) (flag e : Z) :
  lookup r "FlagByte" = Some (VInt flag) ->
  Z.land flag 0x80 > 0 ->
  lookup r "ExtLength" = Some (VInt e) ->
  run_preproc r ext_data_param
  = Ok (Some (fields.mk_ParameterType 7 (e - 1) fields.PTYPE_BYTE fields.PNAME_EXT_DATA true
                                      (Some fields._set_extension_length))).
Proof.
  intros Hflag Hext He.
  unfold run_preproc, ext_data_param. cbn [fields.preproc fields.call_preproc].
  unfold getitem. change fields.PNAME_FLAG_BYTE with "FlagByte"%string.
  rewrite Hflag. cbn [bind fields.sfi_ext_flag fields.flag_set].
  destruct (Z.land flag 128 >? 0) eqn:E; [|zbool; lia].
  change fields.PNAME_EXT_LENGTH with "ExtLength"%string. rewrite He.
  cbn [bind]. reflexivity.
Qed.

(** C6: the code does not do what the claim says. Take a structured field
    whose extension flag is set and whose ExtLength is 1.
    - The preprocessor gives the ExtData descriptor the length
      ExtLength - 1 = 0, and [parse_bytes] reads a count of 0 as "the rest
      of the data": ExtData is decoded as every byte from offset 7 to the
      end of the field, a sequence that is not empty; with no byte at
      offset 7 nothing is decoded at all.
    - On [ext_length_one] (5A 00 0A D3 EE EE 80 00 00 01 C1), in both modes
      and for every fuel from 2 on, the record holds ExtData = [0xC1], and
      the same byte once more as the data of the field (UndfData).
    - On [ext_length_one_bare] (5A 00 09 D3 EE EE 80 00 00 01), where
      nothing follows ExtLength, no record is yielded: strict mode raises
      RequiredParameterMissingError for ExtData, and lenient mode, having
      noted that error, raises a bare KeyError for the key ExtData, with no
      field number.
    - No record of any input ever holds ExtData as an empty sequence.
    - For ExtLength [e >= 2] the same code does read [e - 1] bytes: with
      that many bytes present at offset 7, ExtData is made of exactly
      those, the integer of the single byte when [e = 2] and the list of
      the bytes otherwise; so for [ext_length_three] ExtData is the two
      bytes AA BB. *)
Theorem ext_length_one_reads_the_rest_of_the_data :
  (forall rec fuel cfg st flag,
      lookup (result st) "FlagByte" = Some (VInt flag) ->
      Z.land flag 0x80 > 0 ->
      lookup (result st) "ExtLength" = Some (VInt 1) ->
      exists param',
        run_preproc (result st) ext_data_param = Ok (Some param')
        /\ fields.length param' = 0
        /\ decode_param rec fuel cfg param' st
           = Ok (if len (data st) <=? 7 then None
                 else Some (VList (byte_values (skipn 7 (data st)))), st)
        /\ (7 < len (data st) -> byte_values (skipn 7 (data st)) <> []))
  /\ (forall (k : nat) (strict : bool),
         stream (2 + k) ext_length_one false false false strict
         = ([ext_length_one_record], StopIteration))
  /\ lookup ext_length_one_record "ExtLength" = Some (VInt 1)
  /\ lookup ext_length_one_record "ExtData" = Some (VList [VInt 0xC1])
  /\ lookup ext_length_one_record "UndfData" = Some (VList [VInt 0xC1])
  /\ (forall k : nat,
         stream (1 + k) ext_length_one_bare false false false true
         = ([], Raises (mk_exn RequiredParameterMissingError
                               "Required parameter missing: ExtData" (Some 1) (Some 0)))
         /\ stream (1 + k) ext_length_one_bare false false false false
            = ([], Raises (mk_exn KeyError "ExtData" None None)))
  /\ (forall fuel f cfg sf f',
         read_structured_field fuel f cfg = Ok (Some sf, f') ->
         lookup sf "ExtData" <> Some (VList []))
  /\ (forall rec fuel cfg st flag e,
         lookup (result st) "FlagByte" = Some (VInt flag) ->
         Z.land flag 0x80 > 0 ->
         lookup (result st) "ExtLength" = Some (VInt e) ->
         2 <= e -> 7 + (e - 1) <= len (data st) ->
         exists param' b,
           run_preproc (result st) ext_data_param = Ok (Some param')
           /\ fields.length param' = e - 1
           /\ b = slice (data st) 7 (7 + (e - 1))
           /\ len b = e - 1
           /\ decode_param rec fuel cfg param' st
              = Ok (Some (if e - 1 =? 1
                          then VInt (byte_val (hd x00 b))
                          else VList (map (fun x => VInt (byte_val x)) b)), st))
  /\ (forall k : nat,
         stream (2 + k) ext_length_three false false false false
         = ([ext_length_three_record], StopIteration)).
Proof.
  split; [|split; [|split; [|split; [|split; [|split; [|split; [|split]]]]]]];
    [| | | | | | | |reflexivity].
  - intros rec fuel cfg st flag Hflag Hext He.
    eexists. split; [exact (ext_data_descriptor _ _ _ Hflag Hext He)|].
    split; [reflexivity|]. split.
    + unfold decode_param. cbn [fields.datatype fields.length fields.offset].
      change (1 - 1) with 0.
      destruct (len (data st) <=? 7) eqn:E; zbool.
      * rewrite parse_bytes_at_end by lia. reflexivity.
      * rewrite parse_bytes_rest by lia. reflexivity.
    + intros Hl. unfold byte_values.
      destruct (skipn 7 (data st)) as [|x l] eqn:Es; [|discriminate].
      exfalso. apply (f_equal (@List.length byte)) in Es.
      rewrite length_skipn in Es. unfold len in Hl. simpl in Es. lia.
  - intros k [|]; reflexivity.
  - reflexivity.
  - reflexivity.
  - reflexivity.
  - intros k. split; reflexivity.
  - exact ext_data_is_never_empty.
  - intros rec fuel cfg st flag e Hflag Hext He He2 Hlen.
    set (b := slice (data st) 7 (7 + (e - 1))).
    assert (Hb : len b = e - 1).
    { subst b. rewrite len_slice_in_range by lia. lia. }
    eexists _, b. split; [exact (ext_data_descriptor _ _ _ Hflag Hext He)|].
    split; [reflexivity|]. split; [reflexivity|]. split; [exact Hb|].
    unfold decode_param.
    cbn [fields.datatype fields.length fields.offset].
    rewrite parse_bytes_in_range by lia. cbn [bind].
    replace (firstn (Z.to_nat (e - 1)) (skipn (Z.to_nat 7) (data st))) with b.
    2:{ subst b. rewrite slice_in_range by lia. f_equal. lia. }
    destruct (e - 1 =? 1) eqn:E1; [|reflexivity].
    zbool. destruct b as [|x b']; [unfold len in Hb; simpl in Hb; lia|].
    reflexivity.
Qed.

Lemma ext_length_one_reads_the_rest_of_the_data_witness :
  exists param',
    run_preproc [("FlagByte"%string, VInt 0x80); ("ExtLength"%string, VInt 1)]
                ext_data_param = Ok (Some param')
    /\ fields.length param' = 0
    /\ decode_param (parse_syntax 0) 0 default_config param'
                    (mk_locals [xd3; xee; xee; x80; x00; x00; x01; xc1]
                               [("FlagByte"%string, VInt 0x80); ("ExtLength"%string, VInt 1)]
                               [] (Some 0) 7)
       = Ok (if len [xd3; xee; xee; x80; x00; x00; x01; xc1] <=? 7 then None
             else Some (VList (byte_values
                                 (skipn 7 [xd3; xee; xee; x80; x00; x00; x01; xc1]))),
             mk_locals [xd3; xee; xee; x80; x00; x00; x01; xc1]
                       [("FlagByte"%string, VInt 0x80); ("ExtLength"%string, VInt 1)]
                       [] (Some 0) 7)
    /\ (7 < len [xd3; xee; xee; x80; x00; x00; x01; xc1] ->
        byte_values (skipn 7 [xd3; xee; xee; x80; x00; x00; x01; xc1]) <> []).
Proof.
  apply (proj1 ext_length_one_reads_the_rest_of_the_data
               (parse_syntax 0) 0%nat default_config
               (mk_locals [xd3; xee; xee; x80; x00; x00; x01; xc1]
                          [("FlagByte"%string, VInt 0x80); ("ExtLength"%string, VInt 1)]
                          [] (Some 0) 7)
               0x80);
    [reflexivity | reflexivity | reflexivity].
Defined.

(* ================================================================= *)
(** * Further properties: the byte readers *)






(** ** Text *)








(* ================================================================= *)
(** * Further properties: reading from the file *)







(** ** The frame of a structured field *)







(* ================================================================= *)
(** * Further properties: the introducer and the checks that follow it *)














(** ** An introducer cut short *)




(* ================================================================= *)
(** * Further properties: the generator *)





